(** * restaurant-ui: the authenticated request gateway, its token provider,
      the action-result wrapper and the star-rating widget

    The development embeds the TypeScript of
    [.cursor/rules/nextjs-api-client.mdc] ([authenticate], [authorizedFetch],
    [fetchWithAuth], [getMenuItems], class [ApiError]) and of
    [src/components/testimonial-section.tsx] ([StarRating]) as Rocq
    functions.  Asynchronous code is run in a small monad [Js] that threads
    the history of observable events (every [fetch] call, every
    [console.error]) and carries JavaScript's two ways of completing: a
    normal value or a thrown one. *)

From Stdlib Require Import ZArith QArith Qround String Ascii List DecimalString.
From stdpp Require Import gmap strings list.

#[local] Set Warnings "-register-all".
#[local] Open Scope string_scope.
#[local] Open Scope Z_scope.
#[local] Open Scope list_scope.

(* ===================================================================== *)
(** ** JavaScript strings and numbers *)
(* ===================================================================== *)

Module JsString.

(** [haystack.includes(needle)] *)
Fixpoint includes (needle haystack : string) : bool :=
  String.prefix needle haystack ||
  match haystack with
  | EmptyString => false
  | String _ rest => includes needle rest
  end.

(** [`${n}`] for an integral number [n] *)
Definition of_int (n : Z) : string := NilZero.string_of_int (Z.to_int n).

(** [a || b] on a possibly undefined string: the empty string is falsy *)
Definition or_else (a : option string) (b : string) : string :=
  match a with
  | Some EmptyString | None => b
  | Some s => s
  end.

End JsString.

(* ===================================================================== *)
(** ** [Buffer.from(s).toString("base64")] *)
(* ===================================================================== *)

Module Base64.

Definition alphabet : string :=
  "ABCDEFGHIJKLMNOPQRSTUVWXYZabcdefghijklmnopqrstuvwxyz0123456789+/".

Definition digit (n : N) : ascii :=
  match String.get (N.to_nat n) alphabet with
  | Some c => c
  | None => "="%char
  end.

Fixpoint encode_bytes (bytes : list N) : string :=
  match bytes with
  | [] => ""
  | [a] =>
      String (digit (a / 4))
        (String (digit ((a mod 4) * 16)) "==")
  | [a; b] =>
      String (digit (a / 4))
        (String (digit ((a mod 4) * 16 + b / 16))
           (String (digit ((b mod 16) * 4)) "="))
  | a :: b :: c :: rest =>
      String (digit (a / 4))
        (String (digit ((a mod 4) * 16 + b / 16))
           (String (digit ((b mod 16) * 4 + c / 64))
              (String (digit (c mod 64)) (encode_bytes rest))))
  end%N.

Definition encode (s : string) : string :=
  encode_bytes (map N_of_ascii (list_ascii_of_string s)).

End Base64.

(* ===================================================================== *)
(** ** Values that cross the wire or get thrown *)
(* ===================================================================== *)

(** The result of [JSON.parse]: objects are finite maps from keys to values. *)
Inductive Json :=
| JNull
| JBool (b : bool)
| JNum (q : Q)
| JStr (s : string)
| JArr (items : list Json)
| JObj (members : gmap string Json).

(** One entry of [ZodError.issues]: where the input departs from the schema. *)
Record ZodIssue := mkIssue {
  issue_path : list string;
  issue_expected : string;
  issue_received : string;
}.

(** Everything a [throw] (or a rejected promise) can carry.  [JsError] covers
    [new Error(m)] and the platform's subclasses ([TypeError] of a failed
    [fetch], [SyntaxError] of [response.json()]); [ApiError] is the class of
    [src/lib/api-client.ts]; [ZodError] is [z.ZodError]. *)
Inductive Thrown :=
| JsError (name message : string)
| ApiError (message : string) (status : Z) (code : option string)
| ZodError (issues : list ZodIssue)
| NotAnError (value : Json).

(** How a JavaScript computation completes. *)
Inductive Completion (A : Type) :=
| Normal (a : A)
| Abrupt (e : Thrown).
Arguments Normal {A} a.
Arguments Abrupt {A} e.

(** *** Request descriptors *)

Inductive HeaderValue :=
| HString (s : string)
| HList (cells : list string).

(** [HeadersInit]: a plain object, an array of rows, or a [Headers] instance. *)
Inductive HeadersInit :=
| HeadersRecord (fields : gmap string HeaderValue)
| HeadersRows (rows : list (list string))
| HeadersInstance (entries : list (string * string)).

Inductive BodyInit :=
| BodyText (s : string)
| BodyParams (pairs : list (string * string)).   (* URLSearchParams *)

(** [RequestInit]; [rest] holds the members the code never names
    ([cache], [mode], [redirect], ...). *)
Record RequestInit := mkInit {
  method : option string;
  headers : option HeadersInit;
  body : option BodyInit;
  credentials : option string;
  rest : gmap string string;
}.

(** [{}] *)
Definition no_options : RequestInit :=
  {| method := None; headers := None; body := None; credentials := None;
     rest := ∅ |}.

(** The own enumerable properties copied by [{...h}].  A plain object yields
    its fields; an array yields its indices; a [Headers] instance keeps its
    entries in an internal slot and yields nothing; [undefined] yields
    nothing. *)
Definition spread_headers (h : option HeadersInit) : gmap string HeaderValue :=
  match h with
  | None => ∅
  | Some (HeadersRecord fields) => fields
  | Some (HeadersRows rows) =>
      list_to_map
        (imap (λ i row, (JsString.of_int (Z.of_nat i), HList row)) rows)
  | Some (HeadersInstance _) => ∅
  end.

(** *** Responses *)

(** A [Response]: its status and what reading its body gives. *)
Record Response := mkResponse {
  status : Z;
  text_of : Completion string;
  json_of : Completion Json;
}.

(** [response.ok]: the status is in the range 200-299. *)
Definition ok (r : Response) : bool :=
  (200 <=? status r) && (status r <=? 299).

(** *** Observable events *)

Inductive Event :=
| EvFetch (url : string) (init : RequestInit)
| EvConsoleError (label : string) (detail : string + Thrown)
| EvEnter (function_name : string).   (* ghost: a function body was entered *)

Definition is_fetch (ev : Event) : bool :=
  match ev with EvFetch _ _ => true | _ => false end.

Definition is_enter (f : string) (ev : Event) : bool :=
  match ev with EvEnter g => String.eqb f g | _ => false end.

Definition fetches (evs : list Event) : list Event := List.filter is_fetch evs.

Definition calls_of (f : string) (evs : list Event) : nat :=
  length (List.filter (is_enter f) evs).

(* ===================================================================== *)
(** ** The monad of asynchronous code *)
(* ===================================================================== *)

(** A computation reads the history of events so far and gives its
    completion together with the events it emitted itself. *)
Definition Js (A : Type) : Type := list Event → Completion A * list Event.

Definition js_ret {A} (a : A) : Js A := λ _, (Normal a, []).

Definition js_throw {A} (e : Thrown) : Js A := λ _, (Abrupt e, []).

Definition js_bind {A B} (m : Js A) (k : A → Js B) : Js B :=
  λ past,
    match m past with
    | (Normal a, evs) =>
        let '(r, evs') := k a (past ++ evs) in (r, evs ++ evs')
    | (Abrupt e, evs) => (Abrupt e, evs)
    end.

(** [try { body } catch (error) { handler }] *)
Definition try_catch {A} (body : Js A) (handler : Thrown → Js A) : Js A :=
  λ past,
    match body past with
    | (Normal a, evs) => (Normal a, evs)
    | (Abrupt e, evs) =>
        let '(r, evs') := handler e (past ++ evs) in (r, evs ++ evs')
    end.

Definition emit (ev : Event) : Js unit := λ _, (Normal tt, [ev]).

(** Lifting a completion that touches no event, such as reading a body. *)
Definition settle {A} (c : Completion A) : Js A := λ _, (c, []).

Notation "x <- m ;; k" := (js_bind m (λ x, k))
  (at level 100, m at next level, right associativity).
Notation "m ;;; k" := (js_bind m (λ _, k))
  (at level 100, right associativity).

(** *** Inspecting a caught value *)

Definition instanceof_Error (e : Thrown) : bool :=
  match e with NotAnError _ => false | _ => true end.

Definition instanceof_ApiError (e : Thrown) : bool :=
  match e with ApiError _ _ _ => true | _ => false end.

Definition instanceof_ZodError (e : Thrown) : bool :=
  match e with ZodError _ => true | _ => false end.

(* ===================================================================== *)
(** ** The platform and the code of [src/actions/auth.ts] *)
(* ===================================================================== *)

Section Gateway.

(** The remote side: how the [fetch] of a request completes, given all
    that happened before it.  [Abrupt] is a network-level failure. *)
Variable network : list Event → string → RequestInit → Completion Response.

(** [process.env] *)
Variable env : gmap string string.

(** The module constant [BASE_URL], whose declaration the rule file
    leaves out. *)
Variable BASE_URL : string.

Definition fetch (url : string) (init : RequestInit) : Js Response :=
  λ past, (network past url init, [EvFetch url init]).

Definition console_error (label : string) (detail : string + Thrown) : Js unit :=
  emit (EvConsoleError label detail).

Definition response_text (r : Response) : Js string := settle (text_of r).

Definition response_json (r : Response) : Js Json := settle (json_of r).

(** [export async function authenticate(): Promise<boolean>] *)
Definition authenticate : Js bool :=
  emit (EvEnter "authenticate") ;;;
  let clientId := JsString.or_else (env !! "API_CLIENT_ID") "client" in
  let clientSecret := JsString.or_else (env !! "API_CLIENT_SECRET") "secret" in
  try_catch
    (let formData :=
       [("grant_type", "client_credentials")] ++ [("scope", "write")] in
     response <- fetch (BASE_URL +:+ "/oauth2/token")
       {| method := Some "POST";
          headers := Some (HeadersRecord
            (<["Authorization" :=
                 HString ("Basic " +:+
                          Base64.encode (clientId +:+ ":" +:+ clientSecret))]>
               {["Content-Type" := HString "application/x-www-form-urlencoded"]}));
          body := Some (BodyParams formData);
          credentials := Some "include";
          rest := ∅ |} ;;
     if negb (ok response) then
       t <- response_text response ;;
       console_error "Authentication failed:" (inl t) ;;;
       js_ret false
     else js_ret true)
    (λ error,
       console_error "Authentication error:" (inr error) ;;;
       js_ret false).

(** [export async function authorizedFetch(url, options = {})] *)
Definition authorizedFetch (url : string) (options : RequestInit) : Js Response :=
  response <- fetch url
    {| method := method options;
       headers := Some (HeadersRecord
         (<["Accept" := HString "application/json"]>
            (<["Content-Type" := HString "application/json"]>
               (spread_headers (headers options)))));
       body := body options;
       credentials := Some "include";
       rest := rest options |} ;;
  response <-
    (if status response =? 401 then
       authenticated <- authenticate ;;
       if negb authenticated then
         js_throw (JsError "Error" "Authentication failed")
       else
         fetch url
           {| method := method options;
              headers := Some (HeadersRecord
                (<["Accept" := HString "application/json"]>
                   (<["Content-Type" := HString "application/json"]>
                      (spread_headers (headers options)))));
              body := body options;
              credentials := Some "include";
              rest := rest options |}
     else js_ret response) ;;
  if negb (ok response) then
    js_throw (JsError "Error" ("API error: " +:+ JsString.of_int (status response)))
  else js_ret response.

End Gateway.

(** A scripted remote side for experiments: the [n]-th [fetch] of a run
    completes as the [n]-th entry says, and the network is down afterwards. *)
Definition scripted (script : list (Completion Response))
  : list Event → string → RequestInit → Completion Response :=
  λ past _ _,
    nth (length (fetches past)) script
      (Abrupt (JsError "TypeError" "fetch failed")).

Definition plain (code : Z) : Response :=
  {| status := code; text_of := Normal ""; json_of := Normal JNull |}.

(* ===================================================================== *)
(** ** Schema validation (the part of Zod the server action uses) *)
(* ===================================================================== *)

Inductive ZodSchema :=
| ZString                                     (* z.string() *)
| ZNumber                                     (* z.number() *)
| ZBoolean                                    (* z.boolean() *)
| ZArray (element : ZodSchema)                (* z.array(element) *)
| ZObject (shape : list (string * ZodSchema)). (* z.object({...}) *)

(** [undefined] is [None]: the value of a key the object lacks. *)
Definition json_type (input : option Json) : string :=
  match input with
  | None => "undefined"
  | Some JNull => "null"
  | Some (JBool _) => "boolean"
  | Some (JNum _) => "number"
  | Some (JStr _) => "string"
  | Some (JArr _) => "array"
  | Some (JObj _) => "object"
  end.

Definition invalid_type (path : list string) (expected : string)
    (input : option Json) : list ZodIssue :=
  [mkIssue path expected (json_type input)].

(** Zod reports the issues of all parts, not only the first. *)
Definition both {A B C} (f : A → B → C) (a : A + list ZodIssue)
    (b : B + list ZodIssue) : C + list ZodIssue :=
  match a, b with
  | inl x, inl y => inl (f x y)
  | inl _, inr issues => inr issues
  | inr issues, inl _ => inr issues
  | inr issues, inr issues' => inr (issues ++ issues')
  end.

Fixpoint all_of {A} (results : list (A + list ZodIssue)) : list A + list ZodIssue :=
  match results with
  | [] => inl []
  | r :: more => both cons r (all_of more)
  end.

(** [schema.safeParse(input)] at a path: the parsed value (an object keeps
    only the keys of its shape) or the issues. *)
Fixpoint zod_check (schema : ZodSchema) (path : list string)
    (input : option Json) {struct schema} : Json + list ZodIssue :=
  match schema with
  | ZString =>
      match input with
      | Some (JStr s) => inl (JStr s)
      | _ => inr (invalid_type path "string" input)
      end
  | ZNumber =>
      match input with
      | Some (JNum q) => inl (JNum q)
      | _ => inr (invalid_type path "number" input)
      end
  | ZBoolean =>
      match input with
      | Some (JBool b) => inl (JBool b)
      | _ => inr (invalid_type path "boolean" input)
      end
  | ZArray element =>
      match input with
      | Some (JArr items) =>
          match
            all_of (imap (λ i item,
                      zod_check element (path ++ [JsString.of_int (Z.of_nat i)])
                        (Some item)) items)
          with
          | inl parsed => inl (JArr parsed)
          | inr issues => inr issues
          end
      | _ => inr (invalid_type path "array" input)
      end
  | ZObject shape =>
      match input with
      | Some (JObj members) =>
          let fix fields (shape : list (string * ZodSchema))
              : gmap string Json + list ZodIssue :=
            match shape with
            | [] => inl ∅
            | (key, sub) :: more =>
                both (λ v parsed, <[key := v]> parsed)
                  (zod_check sub (path ++ [key]) (members !! key))
                  (fields more)
            end in
          match fields shape with
          | inl parsed => inl (JObj parsed)
          | inr issues => inr issues
          end
      | _ => inr (invalid_type path "object" input)
      end
  end.

(** [schema.parse(data)]: the parsed value, or a thrown [ZodError]. *)
Definition zod_parse (schema : ZodSchema) (data : Json) : Js Json :=
  match zod_check schema [] (Some data) with
  | inl parsed => js_ret parsed
  | inr issues => js_throw (ZodError issues)
  end.

(* ===================================================================== *)
(** ** [src/lib/api-client.ts] and [src/actions/api.ts] *)
(* ===================================================================== *)

(** [ActionResult<T>] *)
Inductive ActionResult (T : Type) :=
| Success (data : T)
| Failure (error : string) (code : option string) (status : option Z).
Arguments Success {T} data.
Arguments Failure {T} error code status.

Section Actions.

Variable network : list Event → string → RequestInit → Completion Response.
Variable env : gmap string string.

(** [BASE_URL] as [src/actions/auth.ts] has it, and as
    [src/actions/api.ts] has it: the rule shows neither declaration. *)
Variable AUTH_BASE_URL : string.
Variable BASE_URL : string.

(** The text Zod gives to [ZodError.message] (its rendering of the
    issues). *)
Variable zod_message : list ZodIssue → string.

(** The fields of [menuItemSchema] that the rule elides ([// ...]). *)
Variable more_fields : list (string * ZodSchema).

(** [error.message], read only once [error instanceof Error] holds. *)
Definition message_of (e : Thrown) : string :=
  match e with
  | JsError _ m => m
  | ApiError m _ _ => m
  | ZodError issues => zod_message issues
  | NotAnError _ => ""
  end.

Definition API_URL : string :=
  JsString.or_else (env !! "NEXT_PUBLIC_API_URL") "http://localhost:8080".

(** [export async function fetchWithAuth<T>(endpoint, options = {})] *)
Definition fetchWithAuth (endpoint : string) (options : RequestInit) : Js Json :=
  try_catch
    (let url := API_URL +:+ endpoint in
     response <- authorizedFetch network env AUTH_BASE_URL url options ;;
     response_json response)
    (λ error,
       if instanceof_Error error then
         if JsString.includes "API error: 401" (message_of error) then
           js_throw (ApiError "Authentication failed" 401 None)
         else js_throw (ApiError (message_of error) 500 None)
       else js_throw (ApiError "Unknown error" 500 None)).

Definition menuItemSchema : ZodSchema :=
  ZObject ([("id", ZString); ("name", ZString)] ++ more_fields).

(** [export async function getMenuItems(): Promise<ActionResult<MenuItem[]>>] *)
Definition getMenuItems : Js (ActionResult Json) :=
  try_catch
    (response <- authorizedFetch network env AUTH_BASE_URL
                   (BASE_URL +:+ "/api/menu") no_options ;;
     data <- response_json response ;;
     items <- zod_parse (ZArray menuItemSchema) data ;;
     js_ret (Success items))
    (λ error,
       if instanceof_ApiError error then
         js_ret (Failure (message_of error)
                   (match error with ApiError _ _ c => c | _ => None end)
                   (match error with ApiError _ s _ => Some s | _ => None end))
       else if instanceof_ZodError error then
         js_ret (Failure ("Invalid data format: " +:+ message_of error)
                   (Some "VALIDATION_ERROR") None)
       else
         js_ret (Failure
                   (if instanceof_Error error then message_of error
                    else "Unknown error")
                   None None)).

End Actions.

(* ===================================================================== *)
(** ** [StarRating] of [src/components/testimonial-section.tsx] *)
(* ===================================================================== *)

(** A JavaScript number.  Every finite double is a rational, and the only
    operations [StarRating] applies ([Math.floor], subtracting [0.5] from
    1..5, [<=], [===]) are exact on doubles, so finite values are kept as
    rationals. *)
Inductive JsNumber :=
| NaN
| PosInf
| NegInf
| Finite (q : Q).

Definition math_floor (x : JsNumber) : JsNumber :=
  match x with
  | Finite q => Finite (inject_Z (Qfloor q))
  | other => other
  end.

(** [a <= b] *)
Definition num_le (a b : JsNumber) : bool :=
  match a, b with
  | NaN, _ | _, NaN => false
  | NegInf, _ => true
  | _, PosInf => true
  | PosInf, _ => false
  | _, NegInf => false
  | Finite p, Finite q => Qle_bool p q
  end.

(** [a === b] *)
Definition num_strict_eq (a b : JsNumber) : bool :=
  match a, b with
  | PosInf, PosInf | NegInf, NegInf => true
  | Finite p, Finite q => Qeq_bool p q
  | _, _ => false
  end.

(** [a - b] *)
Definition num_sub (a b : JsNumber) : JsNumber :=
  match a, b with
  | NaN, _ | _, NaN => NaN
  | PosInf, PosInf | NegInf, NegInf => NaN
  | PosInf, _ | _, NegInf => PosInf
  | NegInf, _ | _, PosInf => NegInf
  | Finite p, Finite q => Finite (p - q)
  end.

Definition of_Z (n : Z) : JsNumber := Finite (inject_Z n).

Inductive Icon := Star | StarHalf.

(** A rendered [<Star .../>] or [<StarHalf .../>]. *)
Record Element := mkElement {
  icon : Icon;
  key : Z;
  size : Z;
  fill : option string;
}.

(** The [<div className=...>] around the stars. *)
Record Div := mkDiv {
  className : string;
  children : list Element;
}.

Definition StarRating (rating : JsNumber) : Div :=
  {| className := "flex text-yellow-500";
     children :=
       map (λ star,
              if num_le (of_Z star) (math_floor rating) then
                {| icon := Star; key := star; size := 16;
                   fill := Some "currentColor" |}
              else if num_strict_eq (num_sub (of_Z star) (Finite (1 # 2))) rating then
                {| icon := StarHalf; key := star; size := 16;
                   fill := Some "currentColor" |}
              else
                {| icon := Star; key := star; size := 16; fill := None |})
           [1; 2; 3; 4; 5] |}.

(* ===================================================================== *)
(** ** What the platform puts on the wire for a [URLSearchParams] body *)
(* ===================================================================== *)

Module FormData.

Definition hex (n : N) : ascii :=
  match String.get (N.to_nat n) "0123456789ABCDEF" with
  | Some c => c
  | None => "0"%char
  end.

(** Bytes that [application/x-www-form-urlencoded] leaves as they are. *)
Definition unreserved (c : ascii) : bool :=
  let n := N_of_ascii c in
  (((48 <=? n) && (n <=? 57)) || ((65 <=? n) && (n <=? 90)) ||
   ((97 <=? n) && (n <=? 122)) ||
   (n =? 42) || (n =? 45) || (n =? 46) || (n =? 95))%N.

Definition encode_byte (c : ascii) : string :=
  let n := N_of_ascii c in
  if unreserved c then String c ""
  else if (n =? 32)%N then "+"
  else String "%" (String (hex (n / 16)) (String (hex (n mod 16)) "")).

Fixpoint encode_component (s : string) : string :=
  match s with
  | EmptyString => ""
  | String c more => encode_byte c +:+ encode_component more
  end.

(** [params.toString()] *)
Fixpoint to_string (pairs : list (string * string)) : string :=
  match pairs with
  | [] => ""
  | [(k, v)] => encode_component k +:+ "=" +:+ encode_component v
  | (k, v) :: more =>
      encode_component k +:+ "=" +:+ encode_component v +:+ "&" +:+
      to_string more
  end.

End FormData.

(* ===================================================================== *)
(** ** Names for the request descriptors the code builds *)
(* ===================================================================== *)

(** The object literal that [authorizedFetch] writes out at each of its two
    [fetch] calls, as a function of the caller's options. *)
Definition gateway_request (options : RequestInit) : RequestInit :=
  {| method := method options;
     headers := Some (HeadersRecord
       (<["Accept" := HString "application/json"]>
          (<["Content-Type" := HString "application/json"]>
             (spread_headers (headers options)))));
     body := body options;
     credentials := Some "include";
     rest := rest options |}.

(** The URL and the object literal of the [fetch] call in [authenticate]. *)
Definition token_url (BASE_URL : string) : string := BASE_URL +:+ "/oauth2/token".

Definition client_id (env : gmap string string) : string :=
  JsString.or_else (env !! "API_CLIENT_ID") "client".

Definition client_secret (env : gmap string string) : string :=
  JsString.or_else (env !! "API_CLIENT_SECRET") "secret".

Definition token_request (env : gmap string string) : RequestInit :=
  {| method := Some "POST";
     headers := Some (HeadersRecord
       (<["Authorization" :=
            HString ("Basic " +:+
                     Base64.encode (client_id env +:+ ":" +:+ client_secret env))]>
          {["Content-Type" := HString "application/x-www-form-urlencoded"]}));
     body := Some (BodyParams [("grant_type", "client_credentials"); ("scope", "write")]);
     credentials := Some "include";
     rest := ∅ |}.

(** The events of a call of [authenticate], by what the token endpoint
    answered, and the boolean it returns. *)
Definition token_events (env : gmap string string) (BASE_URL : string)
    (answer : Completion Response) : list Event :=
  [EvEnter "authenticate"; EvFetch (token_url BASE_URL) (token_request env)] ++
  match answer with
  | Normal r =>
      if ok r then []
      else match text_of r with
           | Normal t => [EvConsoleError "Authentication failed:" (inl t)]
           | Abrupt e => [EvConsoleError "Authentication error:" (inr e)]
           end
  | Abrupt e => [EvConsoleError "Authentication error:" (inr e)]
  end.

Definition token_verdict (answer : Completion Response) : bool :=
  match answer with
  | Normal r => ok r
  | Abrupt _ => false
  end.

(** Lines 150-153 of the rule: the error for a response outside the
    success range, and the check every response passes through before
    [authorizedFetch] returns it. *)
Definition status_error (r : Response) : Thrown :=
  JsError "Error" ("API error: " +:+ JsString.of_int (status r)).

Definition checked (r : Response) : Completion Response :=
  if ok r then Normal r else Abrupt (status_error r).

(** The header object of a descriptor built from an object literal. *)
Definition header_fields (init : RequestInit) : gmap string HeaderValue :=
  spread_headers (headers init).

(** The header names a caller supplied, whatever the form of
    [options.headers], with their values. *)
Definition supplied_headers (options : RequestInit) : list (string * string) :=
  match headers options with
  | None => []
  | Some (HeadersRecord fields) =>
      omap (λ kv, match kv.2 with HString s => Some (kv.1, s) | HList _ => None end)
        (map_to_list fields)
  | Some (HeadersRows rows) =>
      omap (λ row, match row with [k; v] => Some (k, v) | _ => None end) rows
  | Some (HeadersInstance entries) => entries
  end.

(** What the [catch] block of [getMenuItems] returns for a caught value. *)
Definition caught (zod_message : list ZodIssue → string) (error : Thrown)
    : ActionResult Json :=
  match error with
  | ApiError m s c => Failure m c (Some s)
  | ZodError issues =>
      Failure ("Invalid data format: " +:+ zod_message issues)
        (Some "VALIDATION_ERROR") None
  | JsError _ m => Failure m None None
  | NotAnError _ => Failure "Unknown error" None None
  end.

(** The three elements [StarRating] can put at position [star]. *)
Definition full_star (star : Z) : Element :=
  {| icon := Star; key := star; size := 16; fill := Some "currentColor" |}.

Definition half_star (star : Z) : Element :=
  {| icon := StarHalf; key := star; size := 16; fill := Some "currentColor" |}.

Definition empty_star (star : Z) : Element :=
  {| icon := Star; key := star; size := 16; fill := None |}.

(* ===================================================================== *)
(** ** Concrete runs *)
(* ===================================================================== *)

Definition menu_body : Json :=
  JArr [JObj {["id" := JStr "1"; "name" := JStr "Masala Dosa"; "price" := JNum (7 # 1)]}].

Definition menu_response : Response :=
  {| status := 200; text_of := Normal "[...]"; json_of := Normal menu_body |}.

Definition bad_menu_response : Response :=
  {| status := 200; text_of := Normal "{}"; json_of := Normal (JObj ∅) |}.

Definition render_issues (issues : list ZodIssue) : string :=
  match issues with
  | [] => ""
  | i :: _ => "Expected " +:+ issue_expected i +:+ ", received " +:+ issue_received i
  end.

Definition configured_env : gmap string string :=
  {["API_CLIENT_ID" := "web"; "API_CLIENT_SECRET" := "s3cret"]}.

Definition instance_options : RequestInit :=
  {| method := Some "GET";
     headers := Some (HeadersInstance [("X-Request-Id", "42")]);
     body := None; credentials := None; rest := ∅ |}.

Definition record_options : RequestInit :=
  {| method := Some "PUT";
     headers := Some (HeadersRecord
       {["Content-Type" := HString "text/plain"; "X-Request-Id" := HString "42"]});
     body := Some (BodyText "{}"); credentials := Some "omit";
     rest := {["cache" := "no-store"]} |}.

(* ===================================================================== *)
(** ** The rest of [nextjs-api-client.mdc]: the hook and the closing example *)
(* ===================================================================== *)

Section Hook.

Variable T : Type.

(** [getMenuItems] as the hook imports it from [@/actions/menu]: a server
    action that returns an [ActionResult]. *)
Variable action : Js (ActionResult T).

(** The [queryFn] that [useMenuItems] hands to [useQuery]. *)
Definition useMenuItems_queryFn : Js T :=
  result <- action ;;
  match result with
  | Failure error _ _ => js_throw (JsError "Error" error)
  | Success data => js_ret data
  end.

End Hook.

(** The server action of the rule's closing example (lines 252-259), which
    goes through [fetchWithAuth]. *)
Module RuleExample.

Definition getMenuItems
    (network : list Event → string → RequestInit → Completion Response)
    (env : gmap string string) (AUTH_BASE_URL : string)
    (zod_message : list ZodIssue → string) : Js (ActionResult Json) :=
  try_catch
    (data <- fetchWithAuth network env AUTH_BASE_URL zod_message "/api/menu"
               no_options ;;
     js_ret (Success data))
    (λ error,
       js_ret (Failure
                 (if instanceof_Error error then message_of zod_message error
                  else "Unknown error")
                 None None)).

End RuleExample.

Definition is_console (ev : Event) : bool :=
  match ev with EvConsoleError _ _ => true | _ => false end.

Definition console_errors (evs : list Event) : list Event :=
  List.filter is_console evs.

(** Items as [z.array(menuItemSchema)] lets them through: objects with a
    string under ["id"] and under ["name"]. *)
Definition is_menu_item (item : Json) : Prop :=
  ∃ members id name,
    item = JObj members ∧ members !! "id" = Some (JStr id)
    ∧ members !! "name" = Some (JStr name).

(* ===================================================================== *)
(** ** Reading a star row *)
(* ===================================================================== *)

(** [lo; lo+1; ...], [n] numbers. *)
Definition count_from (lo : Z) (n : nat) : list Z :=
  map (λ i, lo + Z.of_nat i) (seq 0 n).

(** How many full stars a rating earns: its floor, kept within 0..5. *)
Definition full_count (rating : JsNumber) : nat :=
  match rating with
  | Finite q => Z.to_nat (Z.min 5 (Z.max 0 (Qfloor q)))
  | PosInf => 5
  | NaN | NegInf => 0
  end.

(** Whether a rating is one of 0.5, 1.5, 2.5, 3.5, 4.5. *)
Definition on_half (rating : JsNumber) : bool :=
  match rating with
  | Finite q =>
      existsb (λ k, Qeq_bool (inject_Z k - (1 # 2)) q) [1; 2; 3; 4; 5]
  | _ => false
  end.

Definition is_full (el : Element) : bool :=
  match icon el, fill el with
  | Star, Some _ => true
  | _, _ => false
  end.

Definition is_half (el : Element) : bool :=
  match icon el with StarHalf => true | Star => false end.

(* ===================================================================== *)
(** ** String methods on ASCII text *)
(* ===================================================================== *)

(** JavaScript strings are sequences of UTF-16 code units and its case
    mappings follow Unicode.  On text made of ASCII characters they act on
    single characters as below; the properties of the functions built on
    them are stated for such text. *)
Module JsText.

Definition upper_char (c : ascii) : ascii :=
  let n := N_of_ascii c in
  if ((97 <=? n) && (n <=? 122))%N then ascii_of_N (n - 32) else c.

Definition lower_char (c : ascii) : ascii :=
  let n := N_of_ascii c in
  if ((65 <=? n) && (n <=? 90))%N then ascii_of_N (n + 32) else c.

Fixpoint toUpperCase (s : string) : string :=
  match s with
  | EmptyString => ""
  | String c more => String (upper_char c) (toUpperCase more)
  end.

Fixpoint toLowerCase (s : string) : string :=
  match s with
  | EmptyString => ""
  | String c more => String (lower_char c) (toLowerCase more)
  end.

Definition is_space (c : ascii) : bool := (N_of_ascii c =? 32)%N.

(** [s.split(" ")]: never empty; [""] splits into [[""]]. *)
Fixpoint split_spaces (s : string) : list string :=
  match s with
  | EmptyString => [""]
  | String c more =>
      if is_space c then "" :: split_spaces more
      else match split_spaces more with
           | word :: words => String c word :: words
           | [] => [String c ""]
           end
  end.

(** [words.join(" ")] *)
Fixpoint join_spaces (words : list string) : string :=
  match words with
  | [] => ""
  | [word] => word
  | word :: more => word +:+ " " +:+ join_spaces more
  end.

(** [s.charAt(0)] *)
Definition charAt0 (s : string) : string :=
  match s with
  | EmptyString => ""
  | String c _ => String c ""
  end.

(** [s.slice(1)] *)
Definition slice1 (s : string) : string :=
  match s with
  | EmptyString => ""
  | String _ more => more
  end.

Definition ascii_text (s : string) : bool :=
  forallb (λ c, (N_of_ascii c <? 128)%N) (list_ascii_of_string s).

(** Whether position [i] of [s] opens the text or follows a space. *)
Definition starts_word (s : string) (i : nat) : bool :=
  match i with
  | O => true
  | S j => match String.get j s with
           | Some c => is_space c
           | None => false
           end
  end.

(** Title case as a single pass: a character is upper-cased when it opens
    the text or follows a space, and lower-cased otherwise. *)
Fixpoint title_case (at_start : bool) (s : string) : string :=
  match s with
  | EmptyString => ""
  | String c more =>
      String (if at_start then upper_char c else lower_char c)
        (title_case (is_space c) more)
  end.

End JsText.

(* ===================================================================== *)
(** ** [MenuItemCard] (the second component of [testimonial-section.tsx]) *)
(* ===================================================================== *)

Module MenuItemCard.

(** [MenuItem] is declared in [@/lib/types], outside the files at hand; the
    records keep the members the computations below read, typed as the
    component uses them. *)
Record ProteinOptions := mkProteinOptions {
  option_name : string;
  is_vegetarian : bool;
}.

Record MenuItemProtein := mkProtein {
  protein_options : ProteinOptions;
}.

Record MenuItem := mkMenuItem {
  name : string;
  has_protein_options : bool;
  menu_item_proteins : list MenuItemProtein;
  short_description : option string;
}.

Definition capitalizeWords (str : string) : string :=
  JsText.join_spaces
    (map (λ word, JsText.toUpperCase (JsText.charAt0 word) +:+ JsText.slice1 word)
       (JsText.split_spaces (JsText.toLowerCase str))).

Definition capitalizeFirstLetter (str : string) : string :=
  JsText.toUpperCase (JsText.charAt0 str) +:+ JsText.slice1 str.

Definition hasVegetarianOptions (item : MenuItem) : bool :=
  has_protein_options item &&
  existsb (λ protein, is_vegetarian (protein_options protein))
    (menu_item_proteins item).

Definition hasNonVegetarianOptions (item : MenuItem) : bool :=
  has_protein_options item &&
  existsb (λ protein, negb (is_vegetarian (protein_options protein)))
    (menu_item_proteins item).

(** The text of the description paragraph:
    [item.short_description ? capitalizeFirstLetter(...) : "No description available"]. *)
Definition description (item : MenuItem) : string :=
  match short_description item with
  | None | Some EmptyString => "No description available"
  | Some text => capitalizeFirstLetter text
  end.

(** The component between two events: its two [useState] cells and the
    delays of the timeouts set and not yet fired, oldest first. *)
Record State := mkState {
  isModalOpen : bool;
  isClosing : bool;
  timeouts : list Z;
}.

Definition initial : State :=
  {| isModalOpen := false; isClosing := false; timeouts := [] |}.

Definition animationDuration : Z := 200.

Definition handleClose (s : State) : State :=
  {| isModalOpen := isModalOpen s;
     isClosing := true;
     timeouts := timeouts s ++ [animationDuration] |}.

Definition handleOpenModal (s : State) : State :=
  {| isModalOpen := true; isClosing := isClosing s; timeouts := timeouts s |}.

(** The listener that the effect keeps on [document]. *)
Definition handleKeyDown (key : string) (s : State) : State :=
  if String.eqb key "Escape" && isModalOpen s then handleClose s else s.

(** The [onKeyDown] of the image's [div]. *)
Definition onKeyDown (key : string) (s : State) : State :=
  if String.eqb key "Enter" then handleOpenModal s else s.

(** What can happen to the component: a click on the image, a key pressed
    while the image has the focus, a key pressed elsewhere in the document,
    the modal asking to be closed, and the oldest timeout firing.

    A key pressed on the image runs the [div]'s [onKeyDown] and then
    bubbles to the listener on [document].  The two handlers answer to
    different keys, so the listener acts on the same state whether it reads
    [isModalOpen] before or after the [div]'s handler has run. *)
Inductive Action :=
| ClickImage
| KeyDownImage (key : string)
| KeyDownDocument (key : string)
| ModalClose
| TimeoutFires.

Definition step (s : State) (a : Action) : State :=
  match a with
  | ClickImage => handleOpenModal s
  | KeyDownImage key => handleKeyDown key (onKeyDown key s)
  | KeyDownDocument key => handleKeyDown key s
  | ModalClose => handleClose s
  | TimeoutFires =>
      match timeouts s with
      | [] => s
      | _ :: later =>
          {| isModalOpen := false; isClosing := false; timeouts := later |}
      end
  end.

Definition run (actions : list Action) (s : State) : State :=
  fold_left step actions s.

End MenuItemCard.

(* ===================================================================== *)
(** ** [FavoritesSection] *)
(* ===================================================================== *)

Module FavoritesSection.

(** [FavoriteMenuItem] is declared in [@/actions/menu], outside the files
    at hand; the record keeps the members the component reads. *)
Record FavoriteMenuItem := mkFavorite {
  id : string;
  name : string;
  image_url : string;
  image_alt_text : string;
  short_description : string;
}.

Definition capitalizeFirstLetter (str : string) : string :=
  JsText.join_spaces
    (map (λ word, JsText.toUpperCase (JsText.charAt0 word) +:+ JsText.slice1 word)
       (JsText.split_spaces (JsText.toLowerCase str))).

Record State := mkState {
  isModalOpen : bool;
  isClosing : bool;
  selectedItem : option FavoriteMenuItem;
  timeouts : list Z;
}.

Definition initial : State :=
  {| isModalOpen := false; isClosing := false; selectedItem := None;
     timeouts := [] |}.

Definition animationDuration : Z := 200.

Definition handleOpenModal (item : FavoriteMenuItem) (s : State) : State :=
  {| isModalOpen := true; isClosing := isClosing s; selectedItem := Some item;
     timeouts := timeouts s |}.

Definition handleCloseModal (s : State) : State :=
  {| isModalOpen := isModalOpen s; isClosing := true;
     selectedItem := selectedItem s;
     timeouts := timeouts s ++ [animationDuration] |}.

Inductive Action :=
| ClickImage (item : FavoriteMenuItem)
| KeyDownImage (item : FavoriteMenuItem) (key : string)
| ModalClose
| TimeoutFires.

Definition step (s : State) (a : Action) : State :=
  match a with
  | ClickImage item => handleOpenModal item s
  | KeyDownImage item key =>
      if String.eqb key "Enter" then handleOpenModal item s else s
  | ModalClose => handleCloseModal s
  | TimeoutFires =>
      match timeouts s with
      | [] => s
      | _ :: later =>
          {| isModalOpen := false; isClosing := false;
             selectedItem := selectedItem s; timeouts := later |}
      end
  end.

Definition run (actions : list Action) (s : State) : State :=
  fold_left step actions s.

(** The props of the [ImageModal] the component renders, if it renders
    one: [src], [alt], [isClosing]. *)
Definition modal (s : State) : option (string * string * bool) :=
  if isModalOpen s then
    Some (match selectedItem s with Some item => image_url item | None => "" end,
          match selectedItem s with Some item => image_alt_text item | None => "" end,
          isClosing s)
  else None.

End FavoritesSection.

(** A response of status 200 whose body is not JSON. *)
Definition html_response : Response :=
  {| status := 200; text_of := Normal "<html>";
     json_of := Abrupt (JsError "SyntaxError" "Unexpected token '<'") |}.

(** A remote side on which nothing the platform throws is an instance of
    the application's own [ApiError]. *)
Definition platform_errors
    (network : list Event → string → RequestInit → Completion Response) : Prop :=
  (∀ past url init e,
     network past url init = Abrupt e → instanceof_ApiError e = false)
  ∧ (∀ past url init r e,
       network past url init = Normal r → json_of r = Abrupt e →
       instanceof_ApiError e = false).

Definition dosa : MenuItemCard.MenuItem :=
  {| MenuItemCard.name := "masala dosa";
     MenuItemCard.has_protein_options := true;
     MenuItemCard.menu_item_proteins :=
       [ {| MenuItemCard.protein_options :=
              {| MenuItemCard.option_name := "Paneer";
                 MenuItemCard.is_vegetarian := true |} |};
         {| MenuItemCard.protein_options :=
              {| MenuItemCard.option_name := "Chicken";
                 MenuItemCard.is_vegetarian := false |} |} ];
     MenuItemCard.short_description := Some "crisp rice crepe, SPICED potato" |}.

Definition samosa : FavoritesSection.FavoriteMenuItem :=
  {| FavoritesSection.id := "7"; FavoritesSection.name := "samosa";
     FavoritesSection.image_url := "/img/samosa.jpg";
     FavoritesSection.image_alt_text := "Two samosas";
     FavoritesSection.short_description := "Fried pastry" |}.

(** What holds of [FavoritesSection] between any two events. *)
Definition favorites_invariant (s : FavoritesSection.State) : Prop :=
  (FavoritesSection.isModalOpen s = true →
   is_Some (FavoritesSection.selectedItem s))
  ∧ (FavoritesSection.isClosing s = true → FavoritesSection.timeouts s ≠ [])
  ∧ Forall (λ delay, delay = 200) (FavoritesSection.timeouts s).

(** What holds of [MenuItemCard] between any two events. *)
Definition card_invariant (s : MenuItemCard.State) : Prop :=
  (MenuItemCard.isClosing s = true → MenuItemCard.timeouts s ≠ [])
  ∧ Forall (λ delay, delay = 200) (MenuItemCard.timeouts s).

(* ===================================================================== *)
(** ** The sibling token exchange of [java-auth-cookies.mdc] *)
(* ===================================================================== *)

(** [`${v}`] for a possibly undefined string. *)
Definition template_text (v : option string) : string :=
  match v with
  | Some s => s
  | None => "undefined"
  end.

(** [async function getClientCredentialsToken()] *)
Definition getClientCredentialsToken
    (network : list Event → string → RequestInit → Completion Response)
    (env : gmap string string) (BASE_URL : string) : Js bool :=
  let clientId := env !! "CLIENT_ID" in
  let clientSecret := env !! "CLIENT_SECRET" in
  try_catch
    (response <- fetch network (BASE_URL +:+ "/oauth2/token")
       {| method := Some "POST";
          headers := Some (HeadersRecord
            (<["Authorization" :=
                 HString ("Basic " +:+
                          Base64.encode (template_text clientId +:+ ":" +:+
                                         template_text clientSecret))]>
               {["Content-Type" := HString "application/x-www-form-urlencoded"]}));
          body := Some (BodyParams
                          [("grant_type", "client_credentials"); ("scope", "api")]);
          credentials := Some "include";
          rest := ∅ |} ;;
     if negb (ok response) then
       js_throw (JsError "Error" "Failed to obtain access token")
     else js_ret true)
    (λ error,
       console_error "Failed to get token:" (inr error) ;;;
       js_ret false).

(** The object literal of its [fetch] call. *)
Definition credentials_request (env : gmap string string) : RequestInit :=
  {| method := Some "POST";
     headers := Some (HeadersRecord
       (<["Authorization" :=
            HString ("Basic " +:+
                     Base64.encode (template_text (env !! "CLIENT_ID") +:+ ":" +:+
                                    template_text (env !! "CLIENT_SECRET")))]>
          {["Content-Type" := HString "application/x-www-form-urlencoded"]}));
     body := Some (BodyParams
                     [("grant_type", "client_credentials"); ("scope", "api")]);
     credentials := Some "include";
     rest := ∅ |}.

(* ===================================================================== *)
(** ** The sibling fetch wrapper [fetchApi] (TanStack Query rule) *)
(* ===================================================================== *)

Module JsValue.

(** Truthiness of a JSON value; [None] is [undefined]. *)
Definition truthy (v : option Json) : bool :=
  match v with
  | None | Some JNull => false
  | Some (JBool b) => b
  | Some (JNum q) => negb (Qeq_bool q 0)
  | Some (JStr s) => negb (String.eqb s "")
  | Some (JArr _) | Some (JObj _) => true
  end.

(** [String(v)], given the text of numbers. *)
Fixpoint to_string (number_text : Q → string) (v : Json) : string :=
  match v with
  | JNull => "null"
  | JBool true => "true"
  | JBool false => "false"
  | JNum q => number_text q
  | JStr s => s
  | JArr items =>
      String.concat ","
        (map (λ item, match item with
                      | JNull => ""
                      | _ => to_string number_text item
                      end) items)
  | JObj _ => "[object Object]"
  end.

(** [v.message]: reading a member of [null] throws a [TypeError] with the
    engine's text; strings, numbers, booleans and arrays have no such
    member. *)
Definition message_member (null_text : string) (v : Json)
    : Completion (option Json) :=
  match v with
  | JNull => Abrupt (JsError "TypeError" null_text)
  | JObj members => Normal (members !! "message")
  | _ => Normal None
  end.

End JsValue.

Section FetchApi.

Variable network : list Event → string → RequestInit → Completion Response.
Variable env : gmap string string.

(** [response.statusText], which the record of responses above does not
    carry. *)
Variable statusText : Response → string.

(** The text [String(n)] of a number, and the text of the engine's
    [TypeError] for reading a member of [null]. *)
Variable number_text : Q → string.
Variable null_text : string.

(** [export async function fetchApi<T>(endpoint, options = {})] *)
Definition fetchApi (endpoint : string) (options : RequestInit) : Js Json :=
  let baseUrl := JsString.or_else (env !! "NEXT_PUBLIC_API_URL") "" in
  let url := baseUrl +:+ endpoint in
  response <- fetch network url
    {| method := method options;
       headers := Some (HeadersRecord
         (spread_headers (headers options)
          ∪ {["Content-Type" := HString "application/json"]}));
       body := body options;
       credentials := Some "include";
       rest := rest options |} ;;
  if negb (ok response) then
    error <- try_catch (response_json response) (λ _, js_ret (JObj ∅)) ;;
    message <- settle (JsValue.message_member null_text error) ;;
    js_throw
      (JsError "Error"
         (if JsValue.truthy message then
            match message with
            | Some v => JsValue.to_string number_text v
            | None => ""
            end
          else "API error: " +:+ JsString.of_int (status response) +:+ " " +:+
               statusText response))
  else response_json response.

End FetchApi.

(** The object literal of the [fetch] call in [fetchApi]. *)
Definition api_request (options : RequestInit) : RequestInit :=
  {| method := method options;
     headers := Some (HeadersRecord
       (spread_headers (headers options)
        ∪ {["Content-Type" := HString "application/json"]}));
     body := body options;
     credentials := Some "include";
     rest := rest options |}.

Definition api_url (env : gmap string string) (endpoint : string) : string :=
  JsString.or_else (env !! "NEXT_PUBLIC_API_URL") "" +:+ endpoint.

Definition status_line (statusText : Response → string) (r : Response) : string :=
  "API error: " +:+ JsString.of_int (status r) +:+ " " +:+ statusText r.

Definition reason_phrase (r : Response) : string :=
  if status r =? 401 then "Unauthorized"
  else if status r =? 404 then "Not Found"
  else "".

Definition expired_response : Response :=
  {| status := 401; text_of := Normal "{...}";
     json_of := Normal (JObj {["message" := JStr "Session expired"]}) |}.

Definition null_response : Response :=
  {| status := 500; text_of := Normal "null"; json_of := Normal JNull |}.

(** Header names are compared without regard to case once [fetch] builds
    the request.  A case variant of a forced name is a name that reads
    [Content-Type] or [Accept] up to case without being spelled so. *)
Definition is_case_variant (name : string) : bool :=
  (String.eqb (JsText.toLowerCase name) "content-type"
   && negb (String.eqb name "Content-Type"))
  || (String.eqb (JsText.toLowerCase name) "accept"
      && negb (String.eqb name "Accept")).

Definition no_case_variants (fields : gmap string HeaderValue) : bool :=
  forallb (λ entry, negb (is_case_variant entry.1)) (map_to_list fields).

(** A caller that spells the content type in lower case. *)
Definition variant_fields : gmap string HeaderValue :=
  {["content-type" := HString "text/plain"]}.

Definition variant_options : RequestInit :=
  {| method := None; headers := Some (HeadersRecord variant_fields);
     body := None; credentials := None; rest := ∅ |}.

(* ===================================================================== *)
(** * Properties *)
(* ===================================================================== *)

Example base64_client_secret :
  Base64.encode "client:secret" = "Y2xpZW50OnNlY3JldA==".
Proof. reflexivity. Qed.

Example base64_padding :
  Base64.encode "a" = "YQ==" ∧ Base64.encode "ab" = "YWI=" ∧
  Base64.encode "abc" = "YWJj" ∧ Base64.encode "id:p@ss w0rd" = "aWQ6cEBzcyB3MHJk".
Proof. repeat split. Qed.

Example form_body_escapes :
  FormData.to_string [("grant_type", "client_credentials"); ("scope", "read write")]
  = "grant_type=client_credentials&scope=read+write"
  ∧ FormData.to_string [("q", "a&b=c/d")] = "q=a%26b%3Dc%2Fd".
Proof. repeat split. Qed.

Example spread_of_rows :
  spread_headers (Some (HeadersRows [["X-Request-Id"; "42"]])) !! "0"
  = Some (HList ["X-Request-Id"; "42"])
  ∧ spread_headers (Some (HeadersRows [["X-Request-Id"; "42"]])) !! "X-Request-Id"
    = None.
Proof. split; reflexivity. Qed.

Example includes_api_error_401 :
  JsString.includes "API error: 401" ("API error: " +:+ JsString.of_int 401) = true.
Proof. reflexivity. Qed.

Example authorizedFetch_200 :
  authorizedFetch (scripted [Normal (plain 200)]) ∅ "http://b" "http://b/x" no_options []
  = (Normal (plain 200), [EvFetch "http://b/x" (gateway_request no_options)]).
Proof. reflexivity. Qed.

Example authorizedFetch_401_then_200 :
  fst (authorizedFetch
         (scripted [Normal (plain 401); Normal (plain 204); Normal (plain 200)])
         ∅ "http://b" "http://b/x" no_options [])
  = Normal (plain 200).
Proof. reflexivity. Qed.

(** ** How the two functions of [src/actions/auth.ts] run *)

Section Runs.

Variable network : list Event → string → RequestInit → Completion Response.
Variable env : gmap string string.
Variable BASE_URL : string.

Lemma authenticate_run past :
  let answer :=
    network (past ++ [EvEnter "authenticate"]) (token_url BASE_URL) (token_request env) in
  authenticate network env BASE_URL past
  = (Normal (token_verdict answer), token_events env BASE_URL answer).
Proof.
  cbv zeta.
  unfold authenticate, js_bind, try_catch, emit, fetch, console_error,
    response_text, settle, js_ret, token_events, token_verdict.
  fold (client_id env) (client_secret env) (token_url BASE_URL).
  change (mkInit (Some "POST") _ _ _ _) with (token_request env).
  destruct (network _ _ _) as [r | e]; simpl; [| reflexivity].
  destruct (ok r); simpl; [reflexivity |].
  destruct (text_of r); reflexivity.
Qed.

Lemma authorizedFetch_run url options past :
  let init := gateway_request options in
  let req := EvFetch url init in
  authorizedFetch network env BASE_URL url options past
  = match network past url init with
    | Abrupt e => (Abrupt e, [req])
    | Normal first =>
        if status first =? 401 then
          match authenticate network env BASE_URL (past ++ [req]) with
          | (Normal true, evs) =>
              (match network ((past ++ [req]) ++ evs) url init with
               | Normal second => checked second
               | Abrupt e => Abrupt e
               end, [req] ++ evs ++ [req])
          | (Normal false, evs) =>
              (Abrupt (JsError "Error" "Authentication failed"), [req] ++ evs)
          | (Abrupt e, evs) => (Abrupt e, [req] ++ evs)
          end
        else (checked first, [req])
    end.
Proof.
  cbv zeta.
  unfold authorizedFetch, js_bind, fetch, js_ret, js_throw, checked.
  fold (gateway_request options).
  destruct (network past url _) as [first | e]; [| reflexivity].
  destruct (status first =? 401).
  - destruct (authenticate _ _ _ _) as [[[|] | e] evs]; simpl.
    + destruct (network _ url _) as [second | e]; simpl.
      * destruct (ok second); simpl; rewrite ?app_nil_r; reflexivity.
      * reflexivity.
    + rewrite app_nil_r. reflexivity.
    + reflexivity.
  - simpl. destruct (ok first); reflexivity.
Qed.

End Runs.

(** ** What a call of [authenticate] leaves in the event history *)

Lemma fetches_token_events env BASE_URL answer :
  fetches (token_events env BASE_URL answer)
  = [EvFetch (token_url BASE_URL) (token_request env)].
Proof.
  unfold token_events, calls_of, fetches.
  destruct answer as [r | e]; [| reflexivity].
  destruct (ok r); [reflexivity |].
  destruct (text_of r); reflexivity.
Qed.

Lemma calls_token_events env BASE_URL answer :
  calls_of "authenticate" (token_events env BASE_URL answer) = 1%nat.
Proof.
  unfold token_events, calls_of, fetches.
  destruct answer as [r | e]; [| reflexivity].
  destruct (ok r); [reflexivity |].
  destruct (text_of r); reflexivity.
Qed.

Lemma authenticate_events network env BASE_URL past result evs :
  authenticate network env BASE_URL past = (result, evs) →
  fetches evs = [EvFetch (token_url BASE_URL) (token_request env)] ∧
  calls_of "authenticate" evs = 1%nat ∧
  ∃ b, result = Normal b.
Proof.
  rewrite authenticate_run. cbv zeta. intros [= <- <-].
  rewrite fetches_token_events, calls_token_events. eauto.
Qed.

Lemma fetches_app evs evs' : fetches (evs ++ evs') = fetches evs ++ fetches evs'.
Proof. apply List.filter_app. Qed.

Lemma calls_of_app f evs evs' :
  calls_of f (evs ++ evs') = (calls_of f evs + calls_of f evs')%nat.
Proof. unfold calls_of. rewrite List.filter_app. apply length_app. Qed.

(** Counting over an event list whose shape is known. *)
Ltac count_events :=
  cbn [snd fst]; unfold calls_of, fetches;
  repeat match goal with x := EvFetch _ _ |- _ => subst x end;
  simpl; try lia; try reflexivity.

(** ** The descriptor of the gateway's requests *)

Lemma gateway_request_keeps options :
  method (gateway_request options) = method options ∧
  body (gateway_request options) = body options ∧
  rest (gateway_request options) = rest options.
Proof. repeat split. Qed.

Lemma gateway_request_forces options :
  header_fields (gateway_request options) !! "Content-Type"
    = Some (HString "application/json") ∧
  header_fields (gateway_request options) !! "Accept"
    = Some (HString "application/json") ∧
  credentials (gateway_request options) = Some "include".
Proof.
  unfold header_fields, gateway_request; simpl. repeat split.
  - rewrite lookup_insert_ne by discriminate. apply lookup_insert_eq.
  - apply lookup_insert_eq.
Qed.

(** ** The gateway *)

(** C1.  When the first [fetch] of [authorizedFetch url options] answers 401
    and the call of [authenticate] that follows returns [true], the run
    consists of the request, the events of [authenticate], and one more
    [fetch] of the same url with the same descriptor: the caller's method,
    body and remaining members, the forced [Content-Type] and [Accept], and
    [credentials: "include"].  Its fetches are exactly the request, the
    token exchange and that one retry, and the completion of the call is
    that of the retry: its response passed through the final status check,
    or its network failure. *)
Theorem authorizedFetch_retries_once
    network env BASE_URL url options past first evs_auth :
  let init := gateway_request options in
  let req := EvFetch url init in
  network past url init = Normal first →
  status first = 401 →
  authenticate network env BASE_URL (past ++ [req]) = (Normal true, evs_auth) →
  authorizedFetch network env BASE_URL url options past
  = (match network (past ++ [req] ++ evs_auth) url init with
     | Normal second => checked second
     | Abrupt e => Abrupt e
     end,
     [req] ++ evs_auth ++ [req])
  ∧ fetches ([req] ++ evs_auth ++ [req])
    = [req; EvFetch (token_url BASE_URL) (token_request env); req]
  ∧ method init = method options
  ∧ body init = body options
  ∧ rest init = rest options
  ∧ header_fields init !! "Content-Type" = Some (HString "application/json")
  ∧ header_fields init !! "Accept" = Some (HString "application/json")
  ∧ credentials init = Some "include".
Proof.
  intros init req Hfirst H401 Hauth.
  split; [| split].
  - rewrite authorizedFetch_run. cbv zeta. fold init req.
    rewrite Hfirst, H401. simpl (401 =? 401). cbv iota.
    rewrite Hauth, <- (app_assoc past). reflexivity.
  - apply authenticate_events in Hauth as (Hf & _ & _).
    rewrite !fetches_app, Hf. reflexivity.
  - pose proof (gateway_request_keeps options) as (? & ? & ?).
    pose proof (gateway_request_forces options) as (? & ? & ?).
    auto 10.
Qed.

Lemma authorizedFetch_retries_once_witness :
  let network :=
    scripted [Normal (plain 401); Normal (plain 200); Normal menu_response] in
  let req := EvFetch "http://b/api/menu" (gateway_request record_options) in
  let evs_auth :=
    [EvEnter "authenticate"; EvFetch (token_url "http://b") (token_request ∅)] in
  authorizedFetch network ∅ "http://b" "http://b/api/menu" record_options []
  = (Normal menu_response, [req] ++ evs_auth ++ [req]).
Proof.
  intros network req evs_auth.
  exact (proj1 (authorizedFetch_retries_once network ∅ "http://b"
                  "http://b/api/menu" record_options [] (plain 401) evs_auth
                  eq_refl eq_refl eq_refl)).
Defined.

Lemma checked_spec r :
  checked r = if ok r then Normal r else Abrupt (status_error r).
Proof. reflexivity. Qed.

Lemma ok_range r : ok r = true ↔ 200 ≤ status r ≤ 299.
Proof. unfold ok. rewrite andb_true_iff, !Z.leb_le. reflexivity. Qed.

Lemma unauthorized_not_ok r : status r = 401 → ok r = false.
Proof. unfold ok. intros ->. reflexivity. Qed.

(** ** The server action *)

Lemma getMenuItems_run network env AUTH_BASE_URL BASE_URL zod_message more_fields past :
  getMenuItems network env AUTH_BASE_URL BASE_URL zod_message more_fields past
  = match
      authorizedFetch network env AUTH_BASE_URL (BASE_URL +:+ "/api/menu")
        no_options past
    with
    | (Normal response, evs) =>
        (Normal
           match json_of response with
           | Normal data =>
               match zod_check (ZArray (menuItemSchema more_fields)) [] (Some data) with
               | inl items => Success items
               | inr issues => caught zod_message (ZodError issues)
               end
           | Abrupt e => caught zod_message e
           end, evs)
    | (Abrupt e, evs) => (Normal (caught zod_message e), evs)
    end.
Proof.
  unfold getMenuItems, try_catch, js_bind at 1.
  destruct (authorizedFetch _ _ _ _ _ _) as [[response | e] evs].
  - unfold js_bind, response_json, settle, zod_parse.
    destruct (json_of response) as [data | e].
    + destruct (zod_check (ZArray (menuItemSchema more_fields)) [] (Some data))
        as [items | issues]; cbn [js_ret js_throw caught instanceof_ApiError
                                    instanceof_ZodError message_of];
        rewrite ?app_nil_r; reflexivity.
    + destruct e; cbn [js_ret js_throw caught instanceof_ApiError
                         instanceof_ZodError instanceof_Error message_of];
        rewrite ?app_nil_r; reflexivity.
  - destruct e; simpl; rewrite ?app_nil_r; reflexivity.
Qed.

(** C2.  When the first [fetch] answers 401 and [authenticate] returns
    [false], [authorizedFetch] throws [new Error("Authentication failed")]
    (the failure the specification calls AuthenticationError; the source
    declares no class of that name) and the run ends there: its fetches are
    the request and the token exchange, no retry.  [getMenuItems], whose
    request is [BASE_URL/api/menu] with no options, then returns
    [{success: false, error: "Authentication failed"}] with neither code nor
    status. *)
Theorem authorizedFetch_reauth_failure
    network env AUTH_BASE_URL BASE_URL zod_message more_fields
    url options past first evs_auth :
  let init := gateway_request options in
  let req := EvFetch url init in
  network past url init = Normal first →
  status first = 401 →
  authenticate network env AUTH_BASE_URL (past ++ [req]) = (Normal false, evs_auth) →
  authorizedFetch network env AUTH_BASE_URL url options past
  = (Abrupt (JsError "Error" "Authentication failed"), [req] ++ evs_auth)
  ∧ fetches ([req] ++ evs_auth)
    = [req; EvFetch (token_url AUTH_BASE_URL) (token_request env)]
  ∧ (url = BASE_URL +:+ "/api/menu" → options = no_options →
     getMenuItems network env AUTH_BASE_URL BASE_URL zod_message more_fields past
     = (Normal (Failure "Authentication failed" None None), [req] ++ evs_auth)).
Proof.
  intros init req Hfirst H401 Hauth.
  assert (Hrun : authorizedFetch network env AUTH_BASE_URL url options past
                 = (Abrupt (JsError "Error" "Authentication failed"),
                    [req] ++ evs_auth)).
  { rewrite authorizedFetch_run. cbv zeta. fold init req.
    rewrite Hfirst, H401. simpl (401 =? 401). cbv iota.
    rewrite Hauth. reflexivity. }
  split; [exact Hrun | split].
  - apply authenticate_events in Hauth as (Hf & _ & _).
    rewrite fetches_app, Hf. reflexivity.
  - intros Hurl Hopts. rewrite getMenuItems_run.
    rewrite Hurl, Hopts in Hrun. rewrite Hrun. reflexivity.
Qed.

Lemma authorizedFetch_reauth_failure_witness :
  let network := scripted [Normal (plain 401); Normal (plain 403)] in
  let req := EvFetch "http://b/api/menu" (gateway_request no_options) in
  let evs_auth :=
    [EvEnter "authenticate"; EvFetch (token_url "http://a") (token_request ∅);
     EvConsoleError "Authentication failed:" (inl "")] in
  getMenuItems network ∅ "http://a" "http://b" render_issues [] []
  = (Normal (Failure "Authentication failed" None None), [req] ++ evs_auth).
Proof.
  intros network req evs_auth.
  exact (proj2 (proj2 (authorizedFetch_reauth_failure network ∅ "http://a"
                         "http://b" render_issues [] "http://b/api/menu" no_options []
                         (plain 401) evs_auth eq_refl eq_refl eq_refl))
           eq_refl eq_refl).
Defined.

(** C3.  No run of [authorizedFetch] enters [authenticate] more than once or
    issues more than three fetches (the request, the token exchange, one
    retry).  When the retry is answered 401 as well, the call throws
    [Error("API error: 401")] and the run ends with that retry:
    [authenticate] was entered once and nothing is fetched after the
    retry. *)
Theorem authorizedFetch_single_reauth network env BASE_URL url options past :
  let init := gateway_request options in
  let req := EvFetch url init in
  let run := authorizedFetch network env BASE_URL url options past in
  (calls_of "authenticate" (snd run) ≤ 1)%nat
  ∧ (length (fetches (snd run)) ≤ 3)%nat
  ∧ ∀ first evs_auth second,
      network past url init = Normal first →
      status first = 401 →
      authenticate network env BASE_URL (past ++ [req]) = (Normal true, evs_auth) →
      network (past ++ [req] ++ evs_auth) url init = Normal second →
      status second = 401 →
      run = (Abrupt (JsError "Error" "API error: 401"), [req] ++ evs_auth ++ [req])
      ∧ calls_of "authenticate" (snd run) = 1%nat
      ∧ fetches (snd run)
        = [req; EvFetch (token_url BASE_URL) (token_request env); req].
Proof.
  intros init req run.
  assert (Hbound : (calls_of "authenticate" (snd run) ≤ 1)%nat
                   ∧ (length (fetches (snd run)) ≤ 3)%nat).
  { subst run. rewrite authorizedFetch_run. cbv zeta. fold init req.
    destruct (network past url init) as [first | e]; [| count_events].
    destruct (status first =? 401); [| count_events].
    destruct (authenticate _ _ _ _) as [result evs] eqn:Hauth.
    apply authenticate_events in Hauth as (Hf & Hc & b & ->).
    destruct b; cbn [snd]; rewrite !calls_of_app, !fetches_app, Hf, Hc;
      count_events. }
  destruct Hbound as [Hcalls Hfetches].
  split; [exact Hcalls | split; [exact Hfetches |]].
  intros first evs_auth second Hfirst H401 Hauth Hsecond H401'.
  assert (Hrun : run = (Abrupt (JsError "Error" "API error: 401"),
                        [req] ++ evs_auth ++ [req])).
  { subst run. rewrite authorizedFetch_run. cbv zeta. fold init req.
    rewrite Hfirst, H401. simpl (401 =? 401). cbv iota.
    rewrite Hauth, <- (app_assoc past), Hsecond.
    unfold checked, status_error.
    rewrite (unauthorized_not_ok second H401'), H401'.
    reflexivity. }
  rewrite Hrun. cbn [snd].
  apply authenticate_events in Hauth as (Hf & Hc & _).
  rewrite !calls_of_app, !fetches_app, Hf, Hc. repeat split.
Qed.

Lemma authorizedFetch_single_reauth_witness :
  let network :=
    scripted [Normal (plain 401); Normal (plain 200); Normal (plain 401);
              Normal (plain 200)] in
  let req := EvFetch "http://b/x" (gateway_request record_options) in
  let evs_auth :=
    [EvEnter "authenticate"; EvFetch (token_url "http://b") (token_request ∅)] in
  authorizedFetch network ∅ "http://b" "http://b/x" record_options []
  = (Abrupt (JsError "Error" "API error: 401"), [req] ++ evs_auth ++ [req]).
Proof.
  intros network req evs_auth.
  exact (proj1 (proj2 (proj2 (authorizedFetch_single_reauth network ∅ "http://b"
                                "http://b/x" record_options []))
                  (plain 401) evs_auth (plain 401)
                  eq_refl eq_refl eq_refl eq_refl eq_refl)).
Defined.

(** C4, as stated, fails: a first response of status 500 is not 401, yet the
    gateway does not return it; it throws. *)
Lemma non401_response_not_returned :
  let network := scripted [Normal (plain 500)] in
  network [] "http://b/x" (gateway_request no_options) = Normal (plain 500)
  ∧ status (plain 500) ≠ 401
  ∧ fst (authorizedFetch network ∅ "http://b" "http://b/x" no_options [])
    = Abrupt (JsError "Error" "API error: 500")
  ∧ fst (authorizedFetch network ∅ "http://b" "http://b/x" no_options [])
    ≠ Normal (plain 500).
Proof. repeat split; discriminate. Qed.

(** C4, amended.  When the first [fetch] answers with a status other than
    401, the run is that single request: [authenticate] is not entered and
    nothing else is fetched.  The response is returned as it is when its
    status is in 200..299; otherwise the call throws
    [Error("API error: <status>")]. *)
Theorem authorizedFetch_non401_no_retry
    network env BASE_URL url options past first :
  let init := gateway_request options in
  let req := EvFetch url init in
  let run := authorizedFetch network env BASE_URL url options past in
  network past url init = Normal first →
  status first ≠ 401 →
  snd run = [req]
  ∧ calls_of "authenticate" (snd run) = 0%nat
  ∧ length (fetches (snd run)) = 1%nat
  ∧ (200 ≤ status first ≤ 299 → fst run = Normal first)
  ∧ (¬ 200 ≤ status first ≤ 299 →
     fst run = Abrupt (JsError "Error" ("API error: " +:+ JsString.of_int (status first)))).
Proof.
  intros init req run Hfirst Hne.
  assert (Hrun : run = (checked first, [req])).
  { subst run. rewrite authorizedFetch_run. cbv zeta. fold init req.
    rewrite Hfirst. apply Z.eqb_neq in Hne. rewrite Hne. reflexivity. }
  rewrite Hrun, checked_spec. cbn [fst snd].
  split; [reflexivity | split; [count_events | split; [count_events |]]].
  split; intros Hrange.
  - apply ok_range in Hrange. rewrite Hrange. reflexivity.
  - destruct (ok first) eqn:Hok; [| reflexivity].
    apply ok_range in Hok. contradiction.
Qed.

Lemma authorizedFetch_non401_no_retry_witness :
  let network := scripted [Normal (plain 500)] in
  let run := authorizedFetch network ∅ "http://b" "http://b/x" record_options [] in
  snd run = [EvFetch "http://b/x" (gateway_request record_options)]
  ∧ fst run = Abrupt (JsError "Error" "API error: 500").
Proof.
  intros network run.
  destruct (authorizedFetch_non401_no_retry network ∅ "http://b" "http://b/x"
              record_options [] (plain 500) eq_refl)
    as (Hevents & _ & _ & _ & Hthrow); [discriminate |].
  split; [exact Hevents |].
  apply Hthrow. cbn. lia.
Defined.

(** C5, as stated, fails: after a final response of status 404 the call
    does fail, but what it throws is not an instance of [ApiError] and has
    no status field. *)
Lemma gateway_failure_not_ApiError :
  let network := scripted [Normal (plain 404)] in
  let run := authorizedFetch network ∅ "http://b" "http://b/x" no_options [] in
  ok (plain 404) = false
  ∧ fst run = Abrupt (JsError "Error" "API error: 404")
  ∧ (∀ e, fst run = Abrupt e → instanceof_ApiError e = false)
  ∧ ¬ ∃ message code, fst run = Abrupt (ApiError message 404 code).
Proof.
  repeat split.
  - intros e [= <-]. reflexivity.
  - intros (message & code & [=]).
Qed.

(** C5, amended.  Whenever the final response of a call (the first one when
    its status is not 401, the retried one after a successful
    re-authentication) has a status outside 200..299, the call does not
    return it: it throws a plain [Error] whose message is
    ["API error: "] followed by that status.  The thrown value is an
    [Error] but not an [ApiError]; and a response that the call does return
    has a status in 200..299. *)
Theorem authorizedFetch_failure_is_plain_error
    network env BASE_URL url options past :
  let init := gateway_request options in
  let req := EvFetch url init in
  let run := authorizedFetch network env BASE_URL url options past in
  (∀ first,
     network past url init = Normal first →
     status first ≠ 401 →
     ¬ 200 ≤ status first ≤ 299 →
     fst run = Abrupt (status_error first))
  ∧ (∀ first evs_auth second,
       network past url init = Normal first →
       status first = 401 →
       authenticate network env BASE_URL (past ++ [req]) = (Normal true, evs_auth) →
       network (past ++ [req] ++ evs_auth) url init = Normal second →
       ¬ 200 ≤ status second ≤ 299 →
       fst run = Abrupt (status_error second))
  ∧ (∀ r, status_error r
          = JsError "Error" ("API error: " +:+ JsString.of_int (status r))
          ∧ instanceof_Error (status_error r) = true
          ∧ instanceof_ApiError (status_error r) = false)
  ∧ (∀ r, fst run = Normal r → 200 ≤ status r ≤ 299).
Proof.
  intros init req run.
  assert (Hnot_ok : ∀ r, ¬ 200 ≤ status r ≤ 299 → checked r = Abrupt (status_error r)).
  { intros r Hr. rewrite checked_spec.
    destruct (ok r) eqn:Hok; [| reflexivity].
    apply ok_range in Hok. contradiction. }
  assert (Hchecked : ∀ r r', checked r = Normal r' → 200 ≤ status r' ≤ 299).
  { intros r r'. rewrite checked_spec.
    destruct (ok r) eqn:Hok; [| discriminate].
    intros [= <-]. apply ok_range, Hok. }
  split; [| split; [| split]].
  - intros first Hfirst Hne Hrange.
    subst run. rewrite authorizedFetch_run. cbv zeta. fold init req.
    rewrite Hfirst. apply Z.eqb_neq in Hne. rewrite Hne.
    cbn [fst]. apply Hnot_ok, Hrange.
  - intros first evs_auth second Hfirst H401 Hauth Hsecond Hrange.
    subst run. rewrite authorizedFetch_run. cbv zeta. fold init req.
    rewrite Hfirst, H401. simpl (401 =? 401). cbv iota.
    rewrite Hauth, <- (app_assoc past), Hsecond.
    cbn [fst]. apply Hnot_ok, Hrange.
  - intros r. repeat split.
  - intros r. subst run. rewrite authorizedFetch_run. cbv zeta. fold init req.
    destruct (network past url init) as [first | e]; [| discriminate].
    destruct (status first =? 401).
    + destruct (authenticate _ _ _ _) as [[[|] | e] evs]; try discriminate.
      destruct (network _ url init) as [second | e]; [| discriminate].
      cbn [fst]. intros Hret. apply (Hchecked _ _ Hret).
    + cbn [fst]. intros Hret. apply (Hchecked _ _ Hret).
Qed.

Lemma authorizedFetch_failure_is_plain_error_witness :
  let network :=
    scripted [Normal (plain 401); Normal (plain 200); Normal (plain 503)] in
  fst (authorizedFetch network ∅ "http://b" "http://b/x" record_options [])
  = Abrupt (JsError "Error" "API error: 503")
  ∧ fst (authorizedFetch (scripted [Normal (plain 404)]) ∅ "http://b" "http://b/x"
           record_options [])
    = Abrupt (JsError "Error" "API error: 404")
  ∧ ∀ r, fst (authorizedFetch (scripted [Normal (plain 204)]) ∅ "http://b"
                "http://b/x" record_options []) = Normal r →
         200 ≤ status r ≤ 299.
Proof.
  intros network. split; [| split].
  - apply (proj1 (proj2 (authorizedFetch_failure_is_plain_error network ∅
                           "http://b" "http://b/x" record_options []))
             (plain 401)
             [EvEnter "authenticate";
              EvFetch (token_url "http://b") (token_request ∅)]
             (plain 503) eq_refl eq_refl eq_refl eq_refl).
    cbn. lia.
  - apply (proj1 (authorizedFetch_failure_is_plain_error
                    (scripted [Normal (plain 404)]) ∅
                    "http://b" "http://b/x" record_options [])
             (plain 404) eq_refl); [discriminate | cbn; lia].
  - apply (proj2 (proj2 (proj2 (authorizedFetch_failure_is_plain_error
                    (scripted [Normal (plain 204)]) ∅
                    "http://b" "http://b/x" record_options [])))).
Defined.

(** ** The token provider *)

(** [a || b] gives [a] when [a] is a non-empty string and [b] when [a] is
    undefined or empty. *)
Lemma or_else_cases a b :
  (∀ v, a = Some v → v ≠ "" → JsString.or_else a b = v)
  ∧ (a = None ∨ a = Some "" → JsString.or_else a b = b).
Proof.
  split.
  - intros v -> Hv. destruct v; [contradiction | reflexivity].
  - intros [-> | ->]; reflexivity.
Qed.

(** C6.  Every call of [authenticate] issues exactly one [fetch]: a POST to
    [BASE_URL/oauth2/token] whose body is the form
    [grant_type=client_credentials&scope=write], with the form content type,
    [credentials: "include"], and an [Authorization] header
    ["Basic " + base64(id:secret)], where [id] is the value of
    [API_CLIENT_ID] in the environment when that is set and not empty and
    ["client"] otherwise, and [secret] is the value of [API_CLIENT_SECRET]
    when set and not empty and ["secret"] otherwise.  It returns [true] when
    the answer has a
    status in 200..299, [false] for any other status and [false] when the
    [fetch] itself fails; in no case does it throw. *)
Theorem authenticate_contract network env BASE_URL past :
  let answer :=
    network (past ++ [EvEnter "authenticate"]) (token_url BASE_URL) (token_request env) in
  let run := authenticate network env BASE_URL past in
  fetches (snd run) = [EvFetch (token_url BASE_URL) (token_request env)]
  ∧ token_url BASE_URL = BASE_URL +:+ "/oauth2/token"
  ∧ method (token_request env) = Some "POST"
  ∧ credentials (token_request env) = Some "include"
  ∧ (∃ pairs, body (token_request env) = Some (BodyParams pairs)
              ∧ FormData.to_string pairs = "grant_type=client_credentials&scope=write")
  ∧ header_fields (token_request env) !! "Content-Type"
    = Some (HString "application/x-www-form-urlencoded")
  ∧ (∃ id secret,
       header_fields (token_request env) !! "Authorization"
       = Some (HString ("Basic " +:+ Base64.encode (id +:+ ":" +:+ secret)))
       ∧ (∀ v, env !! "API_CLIENT_ID" = Some v → v ≠ "" → id = v)
       ∧ (env !! "API_CLIENT_ID" = None ∨ env !! "API_CLIENT_ID" = Some "" →
          id = "client")
       ∧ (∀ v, env !! "API_CLIENT_SECRET" = Some v → v ≠ "" → secret = v)
       ∧ (env !! "API_CLIENT_SECRET" = None ∨ env !! "API_CLIENT_SECRET" = Some "" →
          secret = "secret"))
  ∧ (∀ r, answer = Normal r → 200 ≤ status r ≤ 299 → fst run = Normal true)
  ∧ (∀ r, answer = Normal r → ¬ 200 ≤ status r ≤ 299 → fst run = Normal false)
  ∧ (∀ e, answer = Abrupt e → fst run = Normal false)
  ∧ (∃ b, fst run = Normal b).
Proof.
  intros answer run.
  assert (Hrun : run = (Normal (token_verdict answer), token_events env BASE_URL answer)).
  { apply authenticate_run. }
  rewrite Hrun. cbn [fst snd].
  split; [apply fetches_token_events |].
  do 3 (split; [reflexivity |]).
  split; [eexists; split; reflexivity |].
  split.
  { unfold header_fields, token_request; cbn [headers spread_headers].
    rewrite lookup_insert_ne by discriminate. apply lookup_singleton_eq. }
  split.
  { exists (client_id env), (client_secret env).
    split; [unfold header_fields, token_request; cbn [headers spread_headers];
            apply lookup_insert_eq |].
    unfold client_id, client_secret.
    destruct (or_else_cases (env !! "API_CLIENT_ID") "client") as [Hset Hunset].
    destruct (or_else_cases (env !! "API_CLIENT_SECRET") "secret")
      as [Hset' Hunset'].
    auto. }
  split; [| split; [| split]].
  - intros r -> Hrange. apply ok_range in Hrange. cbn. rewrite Hrange. reflexivity.
  - intros r -> Hrange. cbn. destruct (ok r) eqn:Hok; [| reflexivity].
    apply ok_range in Hok. contradiction.
  - intros e ->. reflexivity.
  - eauto.
Qed.

Lemma authenticate_contract_witness :
  fst (authenticate (scripted [Normal (plain 200)]) ∅ "http://b" []) = Normal true
  ∧ fst (authenticate (scripted [Normal (plain 400)]) ∅ "http://b" []) = Normal false
  ∧ fst (authenticate (scripted []) ∅ "http://b" []) = Normal false
  ∧ header_fields (token_request ∅) !! "Authorization"
    = Some (HString "Basic Y2xpZW50OnNlY3JldA==")
  ∧ header_fields (token_request configured_env) !! "Authorization"
    = Some (HString "Basic d2ViOnMzY3JldA==")
  ∧ header_fields (token_request (<["API_CLIENT_SECRET" := ""]> configured_env))
    !! "Authorization"
    = Some (HString "Basic d2ViOnNlY3JldA==").
Proof.
  split; [| split; [| split; [| split; [| split]]]].
  - destruct (authenticate_contract (scripted [Normal (plain 200)]) ∅ "http://b" [])
      as (_ & _ & _ & _ & _ & _ & _ & Htrue & _).
    apply (Htrue (plain 200) eq_refl). cbn. lia.
  - destruct (authenticate_contract (scripted [Normal (plain 400)]) ∅ "http://b" [])
      as (_ & _ & _ & _ & _ & _ & _ & _ & Hfalse & _).
    apply (Hfalse (plain 400) eq_refl). cbn. lia.
  - destruct (authenticate_contract (scripted []) ∅ "http://b" [])
      as (_ & _ & _ & _ & _ & _ & _ & _ & _ & Hdown & _).
    apply (Hdown (JsError "TypeError" "fetch failed") eq_refl).
  - destruct (authenticate_contract (scripted []) ∅ "http://b" [])
      as (_ & _ & _ & _ & _ & _ & (id & secret & Hbasic & _ & Hid & _ & Hsecret) & _).
    rewrite (Hid (or_introl eq_refl)), (Hsecret (or_introl eq_refl)) in Hbasic.
    exact Hbasic.
  - destruct (authenticate_contract (scripted []) configured_env "http://b" [])
      as (_ & _ & _ & _ & _ & _ & (id & secret & Hbasic & Hid & _ & Hsecret & _) & _).
    rewrite (Hid "web" eq_refl ltac:(discriminate)),
      (Hsecret "s3cret" eq_refl ltac:(discriminate)) in Hbasic.
    exact Hbasic.
  - destruct (authenticate_contract (scripted [])
                (<["API_CLIENT_SECRET" := ""]> configured_env) "http://b" [])
      as (_ & _ & _ & _ & _ & _ & (id & secret & Hbasic & Hid & _ & _ & Hsecret) & _).
    rewrite (Hid "web" eq_refl ltac:(discriminate)),
      (Hsecret (or_intror eq_refl)) in Hbasic.
    exact Hbasic.
Defined.

(** ** Caller-supplied headers *)

(** Headers supplied as a plain object are in the object handed to [fetch]
    under every name, as spelled, other than the two forced ones. *)
Lemma gateway_request_forwards_record options fields name :
  headers options = Some (HeadersRecord fields) →
  name ≠ "Content-Type" → name ≠ "Accept" →
  header_fields (gateway_request options) !! name = fields !! name.
Proof.
  intros Hfields Hct Haccept.
  unfold header_fields, gateway_request; cbn [headers spread_headers].
  rewrite Hfields. cbn [spread_headers].
  rewrite !lookup_insert_ne by congruence. reflexivity.
Qed.

Example forced_headers_override :
  header_fields (gateway_request record_options) !! "Content-Type"
  = Some (HString "application/json")
  ∧ header_fields (gateway_request record_options) !! "X-Request-Id"
    = Some (HString "42")
  ∧ credentials (gateway_request record_options) = Some "include"
  ∧ rest (gateway_request record_options) !! "cache" = Some "no-store".
Proof. repeat split. Qed.

(** Every fetch of a run of [authorizedFetch] is the gateway's request or
    the token exchange. *)
Lemma authorizedFetch_fetches network env BASE_URL url options past :
  Forall (λ ev, ev = EvFetch url (gateway_request options)
                ∨ ev = EvFetch (token_url BASE_URL) (token_request env))
    (fetches (snd (authorizedFetch network env BASE_URL url options past))).
Proof.
  rewrite authorizedFetch_run. cbv zeta.
  destruct (network past url _) as [first | e];
    [| cbn; repeat constructor; auto].
  destruct (status first =? 401); [| cbn; repeat constructor; auto].
  destruct (authenticate _ _ _ _) as [result evs] eqn:Hauth.
  apply authenticate_events in Hauth as (Hf & _ & b & ->).
  destruct b; cbn [snd]; rewrite !fetches_app, Hf; cbn;
    repeat (constructor; auto).
Qed.

(** C7 does not hold of the code for every form of [options.headers].  A
    caller who passes a [Headers] instance carrying [X-Request-Id: 42] gets a
    request whose header object holds the two forced names and nothing
    else: the object spread copies no entry of the instance. *)
Theorem headers_instance_not_forwarded :
  let network := scripted [Normal (plain 200)] in
  let run := authorizedFetch network ∅ "http://b" "http://b/x" instance_options [] in
  let init := gateway_request instance_options in
  supplied_headers instance_options = [("X-Request-Id", "42")]
  ∧ run = (Normal (plain 200), [EvFetch "http://b/x" init])
  ∧ header_fields init !! "X-Request-Id" = None
  ∧ header_fields init
    = {["Content-Type" := HString "application/json";
        "Accept" := HString "application/json"]}.
Proof.
  cbv zeta. split; [reflexivity | split; [reflexivity | split]].
  - unfold header_fields, gateway_request; cbn [headers spread_headers instance_options].
    rewrite !lookup_insert_ne by discriminate. apply lookup_empty.
  - vm_compute. reflexivity.
Qed.

(** ** The action wrapper *)

Lemma invalid_data_prefix text :
  String.prefix "Invalid data format" ("Invalid data format: " +:+ text) = true.
Proof. reflexivity. Qed.

(** C8.  [getMenuItems] always completes normally with an [ActionResult]:
    nothing it calls can make it throw.  When [authorizedFetch] returns a
    response whose body is JSON that the schema [z.array(menuItemSchema)]
    accepts, the result is [{success: true, data}] with the parsed list; when
    the schema rejects the body, the result is a failure whose message is
    ["Invalid data format: "] followed by Zod's message, with code
    ["VALIDATION_ERROR"] and no status. *)
Theorem getMenuItems_contract
    network env AUTH_BASE_URL BASE_URL zod_message more_fields past :
  let run :=
    getMenuItems network env AUTH_BASE_URL BASE_URL zod_message more_fields past in
  let schema := ZArray (menuItemSchema more_fields) in
  (∃ result, fst run = Normal result)
  ∧ (∀ response evs data items,
       authorizedFetch network env AUTH_BASE_URL (BASE_URL +:+ "/api/menu")
         no_options past
       = (Normal response, evs) →
       json_of response = Normal data →
       zod_check schema [] (Some data) = inl items →
       run = (Normal (Success items), evs))
  ∧ (∀ response evs data issues,
       authorizedFetch network env AUTH_BASE_URL (BASE_URL +:+ "/api/menu")
         no_options past
       = (Normal response, evs) →
       json_of response = Normal data →
       zod_check schema [] (Some data) = inr issues →
       ∃ error,
         run = (Normal (Failure error (Some "VALIDATION_ERROR") None), evs)
         ∧ error = "Invalid data format: " +:+ zod_message issues
         ∧ String.prefix "Invalid data format" error = true).
Proof.
  intros run schema. subst run. rewrite getMenuItems_run. fold schema.
  split; [| split].
  - destruct (authorizedFetch _ _ _ _ _ _) as [[response | e] evs]; cbn [fst]; eauto.
  - intros response evs data items -> -> ->. reflexivity.
  - intros response evs data issues -> -> ->.
    eexists. split; [reflexivity | split; [reflexivity | apply invalid_data_prefix]].
Qed.

Lemma getMenuItems_contract_witness :
  getMenuItems (scripted [Normal menu_response]) ∅ "http://a" "http://b" render_issues [] []
  = (Normal (Success (JArr [JObj {["id" := JStr "1"; "name" := JStr "Masala Dosa"]}])),
     [EvFetch "http://b/api/menu" (gateway_request no_options)])
  ∧ getMenuItems (scripted [Normal bad_menu_response]) ∅ "http://a" "http://b" render_issues [] []
    = (Normal (Failure "Invalid data format: Expected array, received object"
                 (Some "VALIDATION_ERROR") None),
       [EvFetch "http://b/api/menu" (gateway_request no_options)]).
Proof.
  split.
  - apply (proj1 (proj2 (getMenuItems_contract (scripted [Normal menu_response]) ∅
                           "http://a" "http://b" render_issues [] []))
             menu_response _ menu_body); reflexivity.
  - destruct (proj2 (proj2 (getMenuItems_contract
                              (scripted [Normal bad_menu_response]) ∅
                              "http://a" "http://b" render_issues [] []))
                bad_menu_response
                [EvFetch "http://b/api/menu" (gateway_request no_options)]
                (JObj ∅) [mkIssue [] "array" "object"]
                eq_refl eq_refl eq_refl)
      as (error & Hrun & -> & _).
    exact Hrun.
Defined.

(** ** The API client *)

Lemma fetchWithAuth_run network env BASE_URL zod_message endpoint options past :
  fetchWithAuth network env BASE_URL zod_message endpoint options past
  = match
      authorizedFetch network env BASE_URL (API_URL env +:+ endpoint) options past
    with
    | (Normal response, evs) =>
        (match json_of response with
         | Normal data => Normal data
         | Abrupt e =>
             Abrupt
               (if instanceof_Error e then
                  if JsString.includes "API error: 401" (message_of zod_message e)
                  then ApiError "Authentication failed" 401 None
                  else ApiError (message_of zod_message e) 500 None
                else ApiError "Unknown error" 500 None)
         end, evs)
    | (Abrupt e, evs) =>
        (Abrupt
           (if instanceof_Error e then
              if JsString.includes "API error: 401" (message_of zod_message e)
              then ApiError "Authentication failed" 401 None
              else ApiError (message_of zod_message e) 500 None
            else ApiError "Unknown error" 500 None), evs)
    end.
Proof.
  unfold fetchWithAuth, try_catch, js_bind, response_json, settle.
  destruct (authorizedFetch _ _ _ _ _ _) as [[response | e] evs].
  - destruct (json_of response) as [data | e]; [rewrite app_nil_r; reflexivity |].
    destruct (instanceof_Error e); [destruct (JsString.includes _ _) |];
      cbn; rewrite ?app_nil_r; reflexivity.
  - destruct (instanceof_Error e); [destruct (JsString.includes _ _) |];
      cbn; rewrite ?app_nil_r; reflexivity.
Qed.

(** Among the statuses of at most three digits, only 401 gives a message
    that contains ["API error: 401"]. *)
Lemma only_401_matches code :
  0 ≤ code ≤ 999 → code ≠ 401 →
  JsString.includes "API error: 401" ("API error: " +:+ JsString.of_int code) = false.
Proof.
  intros Hrange Hne.
  assert (Hall :
    forallb (λ n, (Z.of_nat n =? 401) ||
                  negb (JsString.includes "API error: 401"
                          ("API error: " +:+ JsString.of_int (Z.of_nat n))))
      (seq 0 1000) = true) by (vm_compute; reflexivity).
  rewrite forallb_forall in Hall.
  specialize (Hall (Z.to_nat code)).
  rewrite Z2Nat.id in Hall by lia.
  apply Z.eqb_neq in Hne. rewrite Hne in Hall. cbn [orb] in Hall.
  apply negb_true_iff, Hall, in_seq. lia.
Qed.

(** C9.  When [authorizedFetch] throws [e] inside [fetchWithAuth],
    [fetchWithAuth] throws an [ApiError] and nothing else happens.  For an
    [Error] whose message contains ["API error: 401"] it is
    [ApiError("Authentication failed", 401)], and an [ApiError] of status 401
    arises in no other way; for every other [Error] it is
    [ApiError(e.message, 500)]; for a thrown value that is not an [Error] it
    is [ApiError("Unknown error", 500)].  So a failure "API error: <status>"
    of the gateway with a status other than 401 (of at most three digits)
    reaches the caller with status 500 and the message unchanged, and the
    failed re-authentication reaches it as
    [ApiError("Authentication failed", 500)]. *)
Theorem fetchWithAuth_reclassifies
    network env BASE_URL zod_message endpoint options past e evs :
  let run := fetchWithAuth network env BASE_URL zod_message endpoint options past in
  let message := message_of zod_message e in
  authorizedFetch network env BASE_URL (API_URL env +:+ endpoint) options past
  = (Abrupt e, evs) →
  snd run = evs
  ∧ (instanceof_Error e = true →
     JsString.includes "API error: 401" message = true →
     fst run = Abrupt (ApiError "Authentication failed" 401 None))
  ∧ (instanceof_Error e = true →
     JsString.includes "API error: 401" message = false →
     fst run = Abrupt (ApiError message 500 None))
  ∧ (instanceof_Error e = false →
     fst run = Abrupt (ApiError "Unknown error" 500 None))
  ∧ (∀ m c, fst run = Abrupt (ApiError m 401 c) →
            instanceof_Error e = true
            ∧ JsString.includes "API error: 401" message = true
            ∧ m = "Authentication failed")
  ∧ (∀ r, e = status_error r → 0 ≤ status r ≤ 999 → status r ≠ 401 →
          fst run
          = Abrupt (ApiError ("API error: " +:+ JsString.of_int (status r)) 500 None))
  ∧ (e = JsError "Error" "Authentication failed" →
     fst run = Abrupt (ApiError "Authentication failed" 500 None)).
Proof.
  intros run message Hthrown.
  assert (Hrun : run =
    (Abrupt (if instanceof_Error e then
               if JsString.includes "API error: 401" message
               then ApiError "Authentication failed" 401 None
               else ApiError message 500 None
             else ApiError "Unknown error" 500 None), evs)).
  { subst run. rewrite fetchWithAuth_run, Hthrown. reflexivity. }
  rewrite Hrun. cbn [fst snd].
  split; [reflexivity |].
  split; [intros -> ->; reflexivity |].
  split; [intros -> ->; reflexivity |].
  split; [intros ->; reflexivity |].
  split; [| split].
  - intros m c.
    destruct (instanceof_Error e); [| discriminate].
    destruct (JsString.includes "API error: 401" message); [| discriminate].
    intros [= <- <-]. auto.
  - intros r -> Hrange Hne. subst message. cbn [instanceof_Error status_error message_of].
    rewrite (only_401_matches _ Hrange Hne). reflexivity.
  - intros ->. reflexivity.
Qed.

Lemma fetchWithAuth_reclassifies_witness :
  fetchWithAuth (scripted [Normal (plain 404)]) ∅ "http://b" render_issues
    "/api/menu" no_options []
  = (Abrupt (ApiError "API error: 404" 500 None),
     [EvFetch "http://localhost:8080/api/menu" (gateway_request no_options)])
  ∧ fst (fetchWithAuth (scripted [Normal (plain 401); Normal (plain 200);
                                  Normal (plain 401)]) ∅ "http://b" render_issues
           "/api/menu" no_options [])
    = Abrupt (ApiError "Authentication failed" 401 None).
Proof.
  split.
  - pose proof (fetchWithAuth_reclassifies (scripted [Normal (plain 404)]) ∅
                  "http://b" render_issues "/api/menu" no_options []
                  (status_error (plain 404))
                  [EvFetch "http://localhost:8080/api/menu" (gateway_request no_options)]
                  eq_refl) as (Hevents & _ & _ & _ & _ & Hstatus & _).
    specialize (Hstatus (plain 404) eq_refl).
    cbn [status plain] in Hstatus.
    rewrite (surjective_pairing (fetchWithAuth _ _ _ _ _ _ _)), Hevents.
    rewrite Hstatus by (lia || discriminate). reflexivity.
  - eapply (proj1 (proj2 (fetchWithAuth_reclassifies
                    (scripted [Normal (plain 401); Normal (plain 200);
                               Normal (plain 401)]) ∅
                    "http://b" render_issues "/api/menu" no_options []
                    (status_error (plain 401)) _ eq_refl)));
      reflexivity.
Defined.

(** ** The star rating *)

Lemma num_le_floor_finite star q :
  num_le (of_Z star) (math_floor (Finite q)) = true ↔ (star ≤ Qfloor q)%Z.
Proof.
  unfold num_le, of_Z, math_floor. rewrite Qle_bool_iff, <- Zle_Qle. reflexivity.
Qed.

Lemma half_eq_finite star q :
  num_strict_eq (num_sub (of_Z star) (Finite (1 # 2))) (Finite q) = true
  ↔ inject_Z star - (1 # 2) == q.
Proof. unfold num_strict_eq, num_sub, of_Z. apply Qeq_bool_iff. Qed.

(** A rating that is half below [star] has its floor below [star]: the two
    tests of [StarRating] never hold together. *)
Lemma half_excludes_full star rating :
  num_strict_eq (num_sub (of_Z star) (Finite (1 # 2))) rating = true →
  num_le (of_Z star) (math_floor rating) = false.
Proof.
  destruct rating as [| | | q]; try discriminate.
  intros Hhalf. apply half_eq_finite in Hhalf.
  apply not_true_is_false. intros Hfull. apply num_le_floor_finite in Hfull.
  rewrite Zle_Qle in Hfull.
  pose proof (Qfloor_le q) as Hfloor.
  assert (Hlt : (inject_Z star - (1 # 2) < inject_Z star)%Q).
  { rewrite <- (Qplus_0_r (inject_Z star)) at 2.
    unfold Qminus. apply Qplus_lt_r. reflexivity. }
  rewrite Hhalf in Hlt.
  apply (Qlt_irrefl q).
  eapply Qlt_le_trans; [exact Hlt |].
  eapply Qle_trans; [exact Hfull | exact Hfloor].
Qed.

Lemma StarRating_at rating star :
  let el :=
    if num_le (of_Z star) (math_floor rating) then full_star star
    else if num_strict_eq (num_sub (of_Z star) (Finite (1 # 2))) rating
         then half_star star
         else empty_star star in
  1 ≤ star ≤ 5 →
  children (StarRating rating) !! Z.to_nat (star - 1) = Some el.
Proof.
  intros el Hstar.
  assert (Hcases : star = 1 ∨ star = 2 ∨ star = 3 ∨ star = 4 ∨ star = 5) by lia.
  destruct Hcases as [-> | [-> | [-> | [-> | ->]]]]; reflexivity.
Qed.

(** C10.  For every rating (finite, infinite or NaN) [StarRating] renders
    five elements, keyed 1..5 in order.  The element at position [i] is the
    filled full star exactly when [i <= Math.floor(rating)], the filled half
    star exactly when [i - 0.5 === rating], and the unfilled star exactly
    when neither holds.  For a finite rating [q] the two conditions read
    [i ≤ ⌊q⌋] and [i - 1/2 = q]. *)
Theorem StarRating_five_stars rating :
  length (children (StarRating rating)) = 5%nat
  ∧ map key (children (StarRating rating)) = [1; 2; 3; 4; 5]
  ∧ ∀ i, 1 ≤ i ≤ 5 →
      ∃ el,
        children (StarRating rating) !! Z.to_nat (i - 1) = Some el
        ∧ (el = full_star i ↔ num_le (of_Z i) (math_floor rating) = true)
        ∧ (el = half_star i
           ↔ num_strict_eq (num_sub (of_Z i) (Finite (1 # 2))) rating = true)
        ∧ (el = empty_star i
           ↔ num_le (of_Z i) (math_floor rating) = false
             ∧ num_strict_eq (num_sub (of_Z i) (Finite (1 # 2))) rating = false)
        ∧ (∀ q, rating = Finite q →
                (el = full_star i ↔ (i ≤ Qfloor q)%Z)
                ∧ (el = half_star i ↔ inject_Z i - (1 # 2) == q)).
Proof.
  split; [reflexivity | split].
  { unfold StarRating; cbn [children map].
    repeat match goal with
           | |- context [if ?c then _ else _] => destruct c
           end; reflexivity. }
  intros i Hi. eexists. split; [apply (StarRating_at rating i Hi) |].
  pose proof (half_excludes_full i rating) as Hexcl.
  assert (Hshape :
    (full_star i = full_star i ↔ True) ∧ (half_star i = full_star i ↔ False)
    ∧ (empty_star i = full_star i ↔ False) ∧ (full_star i = half_star i ↔ False)
    ∧ (full_star i = empty_star i ↔ False) ∧ (half_star i = empty_star i ↔ False)
    ∧ (empty_star i = half_star i ↔ False)).
  { repeat split; try discriminate; tauto. }
  destruct Hshape as (_ & Hhf & Hef & Hfh & Hfe & Hhe & Heh).
  assert (Hmain :
    ∀ el, el = (if num_le (of_Z i) (math_floor rating) then full_star i
                else if num_strict_eq (num_sub (of_Z i) (Finite (1 # 2))) rating
                     then half_star i else empty_star i) →
      (el = full_star i ↔ num_le (of_Z i) (math_floor rating) = true)
      ∧ (el = half_star i
         ↔ num_strict_eq (num_sub (of_Z i) (Finite (1 # 2))) rating = true)
      ∧ (el = empty_star i
         ↔ num_le (of_Z i) (math_floor rating) = false
           ∧ num_strict_eq (num_sub (of_Z i) (Finite (1 # 2))) rating = false)).
  { intros el ->.
    destruct (num_le (of_Z i) (math_floor rating)) eqn:Hfull.
    - destruct (num_strict_eq _ rating) eqn:Hhalf.
      + specialize (Hexcl eq_refl). discriminate.
      + rewrite Hfh, Hfe. intuition discriminate.
    - destruct (num_strict_eq _ rating) eqn:Hhalf.
      + rewrite Hhf, Hhe. intuition discriminate.
      + rewrite Hef, Heh. intuition discriminate. }
  destruct (Hmain _ eq_refl) as (Hfull & Hhalf & Hempty).
  split; [exact Hfull | split; [exact Hhalf | split; [exact Hempty |]]].
  intros q ->. split.
  - rewrite Hfull. apply num_le_floor_finite.
  - rewrite Hhalf. apply half_eq_finite.
Qed.

Lemma StarRating_five_stars_witness :
  children (StarRating (Finite (7 # 2)))
  = [full_star 1; full_star 2; full_star 3; half_star 4; empty_star 5]
  ∧ children (StarRating NaN)
    = [empty_star 1; empty_star 2; empty_star 3; empty_star 4; empty_star 5]
  ∧ children (StarRating (Finite (-3 # 1)))
    = [empty_star 1; empty_star 2; empty_star 3; empty_star 4; empty_star 5]
  ∧ children (StarRating (Finite (15 # 2)))
    = [full_star 1; full_star 2; full_star 3; full_star 4; full_star 5]
  ∧ ∃ el, children (StarRating (Finite (7 # 2))) !! 3%nat = Some el
          ∧ el = half_star 4.
Proof.
  do 4 (split; [reflexivity |]).
  destruct (proj2 (proj2 (StarRating_five_stars (Finite (7 # 2)))) 4)
    as (el & Hat & _ & Hhalf & _); [lia |].
  exists el. split; [exact Hat |].
  apply Hhalf. reflexivity.
Defined.

(* ===================================================================== *)
(** * Further properties of the code *)
(* ===================================================================== *)

(** ** The gateway at its edges *)

(** X1.  When the first [fetch] of [authorizedFetch] fails at the network
    level, the call fails with that very error and the run is the single
    request: [authenticate] is not entered and nothing is retried. *)
Theorem authorizedFetch_network_failure
    network env BASE_URL url options past e :
  let init := gateway_request options in
  let run := authorizedFetch network env BASE_URL url options past in
  network past url init = Abrupt e →
  run = (Abrupt e, [EvFetch url init])
  ∧ calls_of "authenticate" (snd run) = 0%nat.
Proof.
  intros init run Hdown. subst run.
  rewrite authorizedFetch_run. cbv zeta. fold init. rewrite Hdown.
  split; reflexivity.
Qed.

Lemma authorizedFetch_network_failure_witness :
  authorizedFetch (scripted []) ∅ "http://b" "http://b/x" record_options []
  = (Abrupt (JsError "TypeError" "fetch failed"),
     [EvFetch "http://b/x" (gateway_request record_options)]).
Proof.
  exact (proj1 (authorizedFetch_network_failure (scripted []) ∅ "http://b"
                  "http://b/x" record_options []
                  (JsError "TypeError" "fetch failed") eq_refl)).
Defined.

(** X2.  When the first answer is 401 and the token exchange does not
    succeed (a status outside 200..299, or the token endpoint cannot be
    reached), [authorizedFetch] throws [Error("Authentication failed")]
    whatever the cause was: the cause goes to [console.error] alone, and the
    request is not retried. *)
Theorem authorizedFetch_reauth_cause_is_only_logged
    network env BASE_URL url options past first :
  let init := gateway_request options in
  let req := EvFetch url init in
  let answer :=
    network ((past ++ [req]) ++ [EvEnter "authenticate"])
      (token_url BASE_URL) (token_request env) in
  let run := authorizedFetch network env BASE_URL url options past in
  network past url init = Normal first →
  status first = 401 →
  token_verdict answer = false →
  run = (Abrupt (JsError "Error" "Authentication failed"),
         [req] ++ token_events env BASE_URL answer)
  ∧ length (console_errors (snd run)) = 1%nat
  ∧ fetches (snd run) = [req; EvFetch (token_url BASE_URL) (token_request env)]
  ∧ (∀ e, answer = Abrupt e →
          snd run = [req; EvEnter "authenticate";
                     EvFetch (token_url BASE_URL) (token_request env);
                     EvConsoleError "Authentication error:" (inr e)]).
Proof.
  intros init req answer run Hfirst H401 Hverdict.
  assert (Hrun : run = (Abrupt (JsError "Error" "Authentication failed"),
                        [req] ++ token_events env BASE_URL answer)).
  { subst run. rewrite authorizedFetch_run. cbv zeta. fold init req.
    rewrite Hfirst, H401. simpl (401 =? 401). cbv iota.
    rewrite authenticate_run. cbv zeta. fold answer. rewrite Hverdict.
    reflexivity. }
  rewrite Hrun. cbn [snd]. split; [reflexivity |].
  split; [| split].
  - unfold token_events, console_errors. subst req.
    destruct answer as [r | e]; [| reflexivity].
    cbn [token_verdict] in Hverdict. rewrite Hverdict.
    destruct (text_of r); reflexivity.
  - rewrite fetches_app, fetches_token_events. reflexivity.
  - intros e ->. reflexivity.
Qed.

Lemma authorizedFetch_reauth_cause_is_only_logged_witness :
  authorizedFetch (scripted [Normal (plain 401)]) ∅ "http://b" "http://b/x"
    no_options []
  = (Abrupt (JsError "Error" "Authentication failed"),
     [EvFetch "http://b/x" (gateway_request no_options);
      EvEnter "authenticate";
      EvFetch (token_url "http://b") (token_request ∅);
      EvConsoleError "Authentication error:"
        (inr (JsError "TypeError" "fetch failed"))]).
Proof.
  exact (proj1 (authorizedFetch_reauth_cause_is_only_logged
                  (scripted [Normal (plain 401)]) ∅ "http://b" "http://b/x"
                  no_options [] (plain 401) eq_refl eq_refl eq_refl)).
Defined.

Lemma authorizedFetch_starts_with_request network env BASE_URL url options past :
  ∃ later,
    snd (authorizedFetch network env BASE_URL url options past)
    = EvFetch url (gateway_request options) :: later.
Proof.
  rewrite authorizedFetch_run. cbv zeta.
  destruct (network past url _) as [first | e]; [| cbn; eauto].
  destruct (status first =? 401); [| cbn; eauto].
  destruct (authenticate _ _ _ _) as [[[|] | e] evs]; cbn; eauto.
Qed.

(** X3.  Every run of [authorizedFetch] starts with the caller's request,
    and each of its fetches is either that request, with the descriptor
    built from the caller's options, or the token exchange: the function
    contacts no other URL. *)
Theorem authorizedFetch_contacts_only network env BASE_URL url options past :
  let req := EvFetch url (gateway_request options) in
  let evs := snd (authorizedFetch network env BASE_URL url options past) in
  (∃ later, evs = req :: later)
  ∧ Forall (λ ev, ev = req
                  ∨ ev = EvFetch (token_url BASE_URL) (token_request env))
      (fetches evs).
Proof.
  cbv zeta. split.
  - apply authorizedFetch_starts_with_request.
  - apply authorizedFetch_fetches.
Qed.

(** The spread compares names as spelled: a caller's [content-type] is not
    replaced by the forced [Content-Type], and the object handed to [fetch]
    holds both. *)
Example gateway_request_keeps_case_variant :
  header_fields (gateway_request variant_options) !! "content-type"
  = Some (HString "text/plain")
  ∧ header_fields (gateway_request variant_options) !! "Content-Type"
    = Some (HString "application/json")
  ∧ no_case_variants variant_fields = false.
Proof. vm_compute. repeat split. Qed.

Lemma no_case_variants_spec fields name v :
  no_case_variants fields = true → fields !! name = Some v →
  is_case_variant name = false.
Proof.
  unfold no_case_variants. rewrite forallb_forall. intros Hall Hname.
  apply negb_true_iff, (Hall (name, v)).
  apply list_elem_of_In, elem_of_map_to_list, Hname.
Qed.

(** X4.  When the caller passes its headers as a plain object, the object
    that [authorizedFetch] hands to [fetch] holds each of them under its own
    name as spelled, except that the names [Content-Type] and [Accept]
    always hold [application/json], whatever the caller put under them.
    When moreover none of the caller's names is a case variant of those two
    (such as [content-type]), the only members that read [Content-Type] or
    [Accept] up to case are the two forced ones, so the request carries
    [application/json] for both. *)
Theorem authorizedFetch_forwards_plain_headers
    network env BASE_URL url options past fields :
  headers options = Some (HeadersRecord fields) →
  ∃ init later,
    snd (authorizedFetch network env BASE_URL url options past)
    = EvFetch url init :: later
    ∧ (∀ name,
         header_fields init !! name
         = if decide (name = "Content-Type" ∨ name = "Accept")
           then Some (HString "application/json")
           else fields !! name)
    ∧ (no_case_variants fields = true →
       ∀ name v,
         header_fields init !! name = Some v →
         JsText.toLowerCase name = "content-type"
         ∨ JsText.toLowerCase name = "accept" →
         (name = "Content-Type" ∨ name = "Accept")
         ∧ v = HString "application/json").
Proof.
  intros Hfields.
  destruct (authorizedFetch_starts_with_request network env BASE_URL url options past)
    as [later Hevs].
  exists (gateway_request options), later. split; [exact Hevs |].
  assert (Hnames : ∀ name,
            header_fields (gateway_request options) !! name
            = if decide (name = "Content-Type" ∨ name = "Accept")
              then Some (HString "application/json")
              else fields !! name).
  { intros name.
    pose proof (gateway_request_forces options) as (Hct & Haccept & _).
    destruct (decide (name = "Content-Type" ∨ name = "Accept"))
      as [[-> | ->] | Hother].
    - exact Hct.
    - exact Haccept.
    - apply gateway_request_forwards_record; [exact Hfields | tauto | tauto]. }
  split; [exact Hnames |].
  intros Hclean name v. rewrite Hnames.
  destruct (decide (name = "Content-Type" ∨ name = "Accept")) as [Hforced | Hother].
  - intros [= <-] _. auto.
  - intros Hname Hreads. exfalso.
    pose proof (no_case_variants_spec _ _ _ Hclean Hname) as Hvariant.
    unfold is_case_variant in Hvariant.
    apply orb_false_iff in Hvariant as [Hct Haccept].
    destruct Hreads as [Hreads | Hreads]; rewrite Hreads in *; cbn in Hct, Haccept.
    + apply negb_false_iff, String.eqb_eq in Hct. tauto.
    + apply negb_false_iff, String.eqb_eq in Haccept. tauto.
Qed.

Lemma authorizedFetch_forwards_plain_headers_witness :
  ∃ init later,
    snd (authorizedFetch (scripted [Normal (plain 200)]) ∅ "http://b" "http://b/x"
           record_options [])
    = EvFetch "http://b/x" init :: later
    ∧ header_fields init !! "X-Request-Id" = Some (HString "42")
    ∧ header_fields init !! "Content-Type" = Some (HString "application/json")
    ∧ ∀ name v,
        header_fields init !! name = Some v →
        JsText.toLowerCase name = "content-type"
        ∨ JsText.toLowerCase name = "accept" →
        (name = "Content-Type" ∨ name = "Accept")
        ∧ v = HString "application/json".
Proof.
  destruct (authorizedFetch_forwards_plain_headers
              (scripted [Normal (plain 200)]) ∅ "http://b" "http://b/x"
              record_options []
              {["Content-Type" := HString "text/plain";
                "X-Request-Id" := HString "42"]} eq_refl)
    as (init & later & Hevs & Hnames & Hclean).
  exists init, later. split; [exact Hevs |]. split; [| split].
  - rewrite (Hnames "X-Request-Id"). reflexivity.
  - rewrite (Hnames "Content-Type"). reflexivity.
  - apply Hclean. vm_compute. reflexivity.
Defined.

(** ** The token provider at its edges *)

(** X5.  [authenticate] writes to [console.error] exactly when it returns
    [false], and then exactly once; a successful exchange logs nothing. *)
Theorem authenticate_logs_iff_false network env BASE_URL past :
  let run := authenticate network env BASE_URL past in
  ∃ b, fst run = Normal b
       ∧ length (console_errors (snd run)) = (if b then 0 else 1)%nat.
Proof.
  cbv zeta. rewrite authenticate_run. cbv zeta.
  eexists. split; [reflexivity |].
  unfold token_verdict, token_events, console_errors.
  destruct (network _ _ _) as [r | e]; [| reflexivity].
  destruct (ok r); [reflexivity |].
  destruct (text_of r); reflexivity.
Qed.

Lemma client_id_empty env :
  client_id (<["API_CLIENT_ID" := ""]> env) = client_id (delete "API_CLIENT_ID" env).
Proof.
  unfold client_id. rewrite lookup_insert_eq, lookup_delete_eq. reflexivity.
Qed.

Lemma client_secret_empty env :
  client_secret (<["API_CLIENT_SECRET" := ""]> env)
  = client_secret (delete "API_CLIENT_SECRET" env).
Proof.
  unfold client_secret. rewrite lookup_insert_eq, lookup_delete_eq. reflexivity.
Qed.

(** X6.  A client id or a client secret set to the empty string in the
    environment counts as not set: [authenticate] then behaves, request
    included, exactly as if the variable were absent, and so sends the
    default ["client"] or ["secret"]. *)
Theorem authenticate_empty_variable_is_unset network env BASE_URL past :
  authenticate network (<["API_CLIENT_ID" := ""]> env) BASE_URL past
  = authenticate network (delete "API_CLIENT_ID" env) BASE_URL past
  ∧ authenticate network (<["API_CLIENT_SECRET" := ""]> env) BASE_URL past
    = authenticate network (delete "API_CLIENT_SECRET" env) BASE_URL past
  ∧ token_request (<["API_CLIENT_ID" := ""]> (<["API_CLIENT_SECRET" := ""]> ∅))
    = token_request ∅.
Proof.
  assert (Hid : token_request (<["API_CLIENT_ID" := ""]> env)
                = token_request (delete "API_CLIENT_ID" env)).
  { unfold token_request. rewrite client_id_empty. unfold client_secret.
    rewrite lookup_insert_ne, lookup_delete_ne by discriminate. reflexivity. }
  assert (Hsecret : token_request (<["API_CLIENT_SECRET" := ""]> env)
                    = token_request (delete "API_CLIENT_SECRET" env)).
  { unfold token_request. rewrite client_secret_empty. unfold client_id.
    rewrite lookup_insert_ne, lookup_delete_ne by discriminate. reflexivity. }
  split; [| split].
  - rewrite !authenticate_run. cbv zeta. unfold token_events.
    rewrite Hid. reflexivity.
  - rewrite !authenticate_run. cbv zeta. unfold token_events.
    rewrite Hsecret. reflexivity.
  - reflexivity.
Qed.

(** ** The API client beyond its [catch] block *)

(** X7.  Whatever happens, [fetchWithAuth] issues the events of its one
    call of [authorizedFetch] and no other, and when it fails it throws an
    [ApiError] without code whose status is 401, with the message
    ["Authentication failed"], or 500: no other kind of value and no other
    status leaves it. *)
Theorem fetchWithAuth_throws_only_ApiError
    network env BASE_URL zod_message endpoint options past :
  let run := fetchWithAuth network env BASE_URL zod_message endpoint options past in
  snd run
  = snd (authorizedFetch network env BASE_URL (API_URL env +:+ endpoint) options past)
  ∧ ∀ e, fst run = Abrupt e →
         e = ApiError "Authentication failed" 401 None
         ∨ ∃ message, e = ApiError message 500 None.
Proof.
  cbv zeta. rewrite fetchWithAuth_run.
  destruct (authorizedFetch _ _ _ _ _ _) as [[response | thrown] evs]; cbn [fst snd].
  - split; [reflexivity |]. intros e.
    destruct (json_of response) as [data | thrown]; [discriminate |].
    destruct (instanceof_Error thrown); [destruct (JsString.includes _ _) |];
      intros [= <-]; eauto.
  - split; [reflexivity |]. intros e.
    destruct (instanceof_Error thrown); [destruct (JsString.includes _ _) |];
      intros [= <-]; eauto.
Qed.

Lemma fetchWithAuth_throws_only_ApiError_witness :
  fst (fetchWithAuth (scripted []) ∅ "http://b" render_issues "/api/menu"
         no_options [])
  = Abrupt (ApiError "fetch failed" 500 None)
  ∧ (ApiError "fetch failed" 500 None = ApiError "Authentication failed" 401 None
     ∨ ∃ message, ApiError "fetch failed" 500 None = ApiError message 500 None).
Proof.
  split; [reflexivity |].
  exact (proj2 (fetchWithAuth_throws_only_ApiError (scripted []) ∅ "http://b"
                  render_issues "/api/menu" no_options [])
           (ApiError "fetch failed" 500 None) eq_refl).
Defined.

(** X8.  When the gateway returns a response, [fetchWithAuth] returns its
    body parsed as JSON, with no schema check.  A body that does not parse
    makes it throw an [ApiError]: with the parser's message and status 500,
    although the response had a status in 200..299, and with status 401 and
    ["Authentication failed"] in case the parser's message happens to
    contain ["API error: 401"]. *)
Theorem fetchWithAuth_body
    network env BASE_URL zod_message endpoint options past response evs :
  let run := fetchWithAuth network env BASE_URL zod_message endpoint options past in
  authorizedFetch network env BASE_URL (API_URL env +:+ endpoint) options past
  = (Normal response, evs) →
  200 ≤ status response ≤ 299
  ∧ (∀ data, json_of response = Normal data → run = (Normal data, evs))
  ∧ (∀ name message,
       json_of response = Abrupt (JsError name message) →
       JsString.includes "API error: 401" message = false →
       run = (Abrupt (ApiError message 500 None), evs))
  ∧ (∀ name message,
       json_of response = Abrupt (JsError name message) →
       JsString.includes "API error: 401" message = true →
       run = (Abrupt (ApiError "Authentication failed" 401 None), evs)).
Proof.
  intros run Hreturned. split.
  - revert Hreturned. rewrite authorizedFetch_run. cbv zeta.
    assert (Hchecked : ∀ r, checked r = Normal response → 200 ≤ status response ≤ 299).
    { intros r. rewrite checked_spec. destruct (ok r) eqn:Hok; [| discriminate].
      intros [= <-]. apply ok_range, Hok. }
    destruct (network past _ _) as [first | e]; [| discriminate].
    destruct (status first =? 401).
    + destruct (authenticate _ _ _ _) as [[[|] | e] evs']; try discriminate.
      destruct (network _ _ _) as [second | e]; [| discriminate].
      intros [= Hret _]. apply (Hchecked _ Hret).
    + intros [= Hret _]. apply (Hchecked _ Hret).
  - subst run. rewrite fetchWithAuth_run, Hreturned.
    split; [| split].
    + intros data ->. reflexivity.
    + intros name message -> Hno. cbn [instanceof_Error message_of].
      rewrite Hno. reflexivity.
    + intros name message -> Hyes. cbn [instanceof_Error message_of].
      rewrite Hyes. reflexivity.
Qed.

Lemma fetchWithAuth_body_witness :
  fetchWithAuth (scripted [Normal menu_response]) ∅ "http://b" render_issues
    "/api/menu" no_options []
  = (Normal menu_body,
     [EvFetch "http://localhost:8080/api/menu" (gateway_request no_options)])
  ∧ fetchWithAuth (scripted [Normal html_response]) ∅ "http://b" render_issues
      "/api/menu" no_options []
    = (Abrupt (ApiError "Unexpected token '<'" 500 None),
       [EvFetch "http://localhost:8080/api/menu" (gateway_request no_options)]).
Proof.
  split.
  - exact (proj1 (proj2 (fetchWithAuth_body (scripted [Normal menu_response]) ∅
                           "http://b" render_issues "/api/menu" no_options []
                           menu_response _ eq_refl))
             menu_body eq_refl).
  - exact (proj1 (proj2 (proj2 (fetchWithAuth_body (scripted [Normal html_response])
                                  ∅ "http://b" render_issues "/api/menu"
                                  no_options [] html_response _ eq_refl)))
             "SyntaxError" "Unexpected token '<'" eq_refl eq_refl).
Defined.

(** ** The closing example of the rule *)

Lemma RuleExample_getMenuItems_run network env BASE_URL zod_message past :
  RuleExample.getMenuItems network env BASE_URL zod_message past
  = match fetchWithAuth network env BASE_URL zod_message "/api/menu" no_options past with
    | (Normal data, evs) => (Normal (Success data), evs)
    | (Abrupt e, evs) =>
        (Normal (Failure (if instanceof_Error e then message_of zod_message e
                          else "Unknown error") None None), evs)
    end.
Proof.
  unfold RuleExample.getMenuItems, try_catch, js_bind, js_ret.
  destruct (fetchWithAuth _ _ _ _ _ _ _) as [[data | e] evs];
    rewrite ?app_nil_r; reflexivity.
Qed.

(** X9.  The server action of the rule's closing example never throws and
    adds no event to those of the gateway.  It returns the parsed body of
    any response the gateway lets through, with no schema check; and each of
    its failures carries a message only, never a code or a status, although
    the [ApiError] it caught had one: ["Authentication failed"] when the
    gateway's message contains ["API error: 401"], the gateway's own message
    otherwise. *)
Theorem RuleExample_action_contract network env BASE_URL zod_message past :
  let run := RuleExample.getMenuItems network env BASE_URL zod_message past in
  let gateway :=
    authorizedFetch network env BASE_URL (API_URL env +:+ "/api/menu") no_options past in
  snd run = snd gateway
  ∧ (∃ result, fst run = Normal result)
  ∧ (∀ error code status,
       fst run = Normal (Failure error code status) → code = None ∧ status = None)
  ∧ (∀ response data,
       fst gateway = Normal response → json_of response = Normal data →
       fst run = Normal (Success data))
  ∧ (∀ e, fst gateway = Abrupt e → instanceof_Error e = true →
          fst run
          = Normal (Failure
                      (if JsString.includes "API error: 401" (message_of zod_message e)
                       then "Authentication failed"
                       else message_of zod_message e)
                      None None)).
Proof.
  cbv zeta. rewrite RuleExample_getMenuItems_run, fetchWithAuth_run.
  destruct (authorizedFetch _ _ _ _ _ _) as [[response | e] evs]; cbn [fst snd].
  - destruct (json_of response) as [data | e] eqn:Hjson.
    + repeat split; eauto; try discriminate.
      intros response' data' [= <-]. rewrite Hjson. intros [= <-]. reflexivity.
    + split; [reflexivity |]. split; [eauto |]. split; [| split].
      * intros error code status [= _ <- <-]. auto.
      * intros response' data' [= <-]. rewrite Hjson. discriminate.
      * discriminate.
  - split; [reflexivity |]. split; [eauto |]. split; [| split].
    + intros error code status [= _ <- <-]. auto.
    + discriminate.
    + intros e' [= <-] ->.
      destruct (JsString.includes _ _); reflexivity.
Qed.

Lemma RuleExample_action_contract_witness :
  fst (RuleExample.getMenuItems (scripted [Normal bad_menu_response]) ∅ "http://b"
         render_issues [])
  = Normal (Success (JObj ∅))
  ∧ fst (RuleExample.getMenuItems (scripted [Normal (plain 404)]) ∅ "http://b"
           render_issues [])
    = Normal (Failure "API error: 404" None None).
Proof.
  split.
  - exact (proj1 (proj2 (proj2 (proj2 (RuleExample_action_contract
                    (scripted [Normal bad_menu_response]) ∅ "http://b"
                    render_issues []))))
             bad_menu_response (JObj ∅) eq_refl eq_refl).
  - exact (proj2 (proj2 (proj2 (proj2 (RuleExample_action_contract
                    (scripted [Normal (plain 404)]) ∅ "http://b"
                    render_issues []))))
             (status_error (plain 404)) eq_refl eq_refl).
Defined.

(** ** The hook *)

Lemma useMenuItems_queryFn_run (T : Type) (action : Js (ActionResult T)) past :
  useMenuItems_queryFn T action past
  = match action past with
    | (Normal (Success data), evs) => (Normal data, evs)
    | (Normal (Failure error _ _), evs) => (Abrupt (JsError "Error" error), evs)
    | (Abrupt e, evs) => (Abrupt e, evs)
    end.
Proof.
  unfold useMenuItems_queryFn, js_bind, js_ret, js_throw.
  destruct (action past) as [[[data | error code status] | e] evs];
    rewrite ?app_nil_r; reflexivity.
Qed.

(** X10.  The [queryFn] of [useMenuItems] adds no event to those of the
    server action it awaits.  It returns the data of a successful result and
    turns a failed one into a thrown [Error] that carries the result's
    message and nothing else, so the code and the status of the result do
    not reach the query.  Run over [getMenuItems] of [src/actions/api.ts],
    every failure of the query is such a plain [Error]. *)
Theorem useMenuItems_queryFn_contract
    network env AUTH_BASE_URL BASE_URL zod_message more_fields
    (T : Type) (action : Js (ActionResult T)) past :
  let run := useMenuItems_queryFn T action past in
  let menu := getMenuItems network env AUTH_BASE_URL BASE_URL zod_message more_fields in
  snd run = snd (action past)
  ∧ (∀ data, fst (action past) = Normal (Success data) → fst run = Normal data)
  ∧ (∀ error code status,
       fst (action past) = Normal (Failure error code status) →
       fst run = Abrupt (JsError "Error" error))
  ∧ (∀ e, fst (useMenuItems_queryFn Json menu past) = Abrupt e →
          ∃ message, e = JsError "Error" message).
Proof.
  cbv zeta. rewrite !useMenuItems_queryFn_run.
  split; [| split; [| split]].
  - destruct (action past) as [[[data | error code status] | e] evs]; reflexivity.
  - intros data. destruct (action past) as [[[data' | error code status] | e] evs];
      cbn [fst]; intros [= <-]. reflexivity.
  - intros error code status.
    destruct (action past) as [[[data' | error' code' status'] | e] evs];
      cbn [fst]; intros [= <- _ _]. reflexivity.
  - intros e. rewrite getMenuItems_run.
    destruct (authorizedFetch _ _ _ _ _ _) as [[response | thrown] evs].
    + destruct (json_of response) as [data | thrown].
      * destruct (zod_check _ _ _) as [items | issues]; cbn [fst caught];
          intros [= <-]; eauto.
      * destruct thrown; cbn [fst caught]; intros [= <-]; eauto.
    + destruct thrown; cbn [fst caught]; intros [= <-]; eauto.
Qed.

Lemma useMenuItems_queryFn_contract_witness :
  fst (useMenuItems_queryFn Json
         (getMenuItems (scripted [Normal bad_menu_response]) ∅ "http://a" "http://b"
            render_issues [])
         [])
  = Abrupt (JsError "Error" "Invalid data format: Expected array, received object").
Proof.
  exact (proj1 (proj2 (proj2 (useMenuItems_queryFn_contract
                  (scripted []) ∅ "http://a" "http://b" render_issues [] Json
                  (getMenuItems (scripted [Normal bad_menu_response]) ∅ "http://a"
                     "http://b" render_issues [])
                  [])))
           "Invalid data format: Expected array, received object"
           (Some "VALIDATION_ERROR") None eq_refl).
Defined.

(** ** What the server action of [src/actions/api.ts] can return *)

(** Where the completion of [authorizedFetch] comes from: a returned
    response and a network failure come from the remote side; any other
    thrown value is an [Error] made by the gateway. *)
Lemma authorizedFetch_origin network env BASE_URL url options past :
  let init := gateway_request options in
  match fst (authorizedFetch network env BASE_URL url options past) with
  | Normal r => ∃ past', network past' url init = Normal r
  | Abrupt e =>
      (∃ past', network past' url init = Abrupt e)
      ∨ ∃ message, e = JsError "Error" message
  end.
Proof.
  cbv zeta. rewrite authorizedFetch_run. cbv zeta.
  assert (Hchecked : ∀ past' r, network past' url (gateway_request options) = Normal r →
    match checked r with
    | Normal r' => ∃ past', network past' url (gateway_request options) = Normal r'
    | Abrupt e =>
        (∃ past', network past' url (gateway_request options) = Abrupt e)
        ∨ ∃ message, e = JsError "Error" message
    end).
  { intros past' r Hr. rewrite checked_spec. destruct (ok r); [eauto |].
    right. unfold status_error. eauto. }
  destruct (network past url _) as [first | e] eqn:Hfirst; [| cbn; eauto].
  destruct (status first =? 401); [| cbn [fst]; apply (Hchecked _ _ Hfirst)].
  destruct (authenticate _ _ _ _) as [[[|] | e] evs] eqn:Hauth; cbn [fst].
  - destruct (network ((past ++ _) ++ evs) url _) as [second | e] eqn:Hsecond.
    + apply (Hchecked _ _ Hsecond).
    + eauto.
  - eauto.
  - apply authenticate_events in Hauth as (_ & _ & b & Hb). discriminate.
Qed.

Lemma scripted_platform_errors script :
  Forall (λ answer,
            match answer with
            | Abrupt e => instanceof_ApiError e = false
            | Normal r =>
                match json_of r with
                | Abrupt e => instanceof_ApiError e = false
                | Normal _ => True
                end
            end) script →
  platform_errors (scripted script).
Proof.
  intros Hscript.
  assert (Hnth : ∀ n,
    match nth n script (Abrupt (JsError "TypeError" "fetch failed")) with
    | Abrupt e => instanceof_ApiError e = false
    | Normal r =>
        match json_of r with
        | Abrupt e => instanceof_ApiError e = false
        | Normal _ => True
        end
    end).
  { induction Hscript as [| answer script Hanswer _ IH]; intros [| n]; cbn;
      auto. apply IH. }
  split.
  - intros past url init e Hdown. unfold scripted in Hdown.
    specialize (Hnth (length (fetches past))). rewrite Hdown in Hnth. exact Hnth.
  - intros past url init r e Hr Hjson. unfold scripted in Hr.
    specialize (Hnth (length (fetches past))). rewrite Hr, Hjson in Hnth.
    exact Hnth.
Qed.

(** X11.  As long as the platform does not throw the application's own
    [ApiError], no result of [getMenuItems] has a status, and its code is
    either absent or ["VALIDATION_ERROR"]: the [ApiError] branch of its
    [catch] block is never taken, because nothing in its [try] block throws
    an [ApiError]. *)
Theorem getMenuItems_never_reports_status
    network env AUTH_BASE_URL BASE_URL zod_message more_fields past
    error code status :
  platform_errors network →
  fst (getMenuItems network env AUTH_BASE_URL BASE_URL zod_message more_fields past)
  = Normal (Failure error code status) →
  status = None ∧ (code = None ∨ code = Some "VALIDATION_ERROR").
Proof.
  intros [Hdown Hbody]. rewrite getMenuItems_run.
  pose proof (authorizedFetch_origin network env AUTH_BASE_URL
                (BASE_URL +:+ "/api/menu") no_options past) as Horigin.
  cbv zeta in Horigin.
  assert (Hcaught : ∀ e, instanceof_ApiError e = false →
            caught zod_message e = Failure error code status →
            status = None ∧ (code = None ∨ code = Some "VALIDATION_ERROR")).
  { intros [name m | m s c | issues | v] Hnot; try discriminate;
      cbn [caught]; intros [= _ <- <-]; auto. }
  destruct (authorizedFetch _ _ _ _ _ _) as [[response | e] evs]; cbn [fst] in *.
  - destruct Horigin as [past' Hresponse].
    destruct (json_of response) as [data | e] eqn:Hjson.
    + destruct (zod_check _ _ _) as [items | issues]; [discriminate |].
      cbn [caught]. intros [= _ <- <-]. auto.
    + intros [= Hfailure]. apply (Hcaught e); [| exact Hfailure].
      apply (Hbody _ _ _ _ _ Hresponse Hjson).
  - intros [= Hfailure]. apply (Hcaught e); [| exact Hfailure].
    destruct Horigin as [[past' Hthrown] | [message ->]]; [| reflexivity].
    apply (Hdown _ _ _ _ Hthrown).
Qed.

Lemma getMenuItems_never_reports_status_witness :
  fst (getMenuItems (scripted [Normal (plain 404)]) ∅ "http://a" "http://b"
         render_issues [] [])
  = Normal (Failure "API error: 404" None None)
  ∧ (@None Z = None ∧ (@None string = None ∨ @None string = Some "VALIDATION_ERROR")).
Proof.
  split; [reflexivity |].
  apply (getMenuItems_never_reports_status (scripted [Normal (plain 404)]) ∅
           "http://a" "http://b" render_issues [] [] "API error: 404" None None).
  - apply scripted_platform_errors. repeat constructor.
  - reflexivity.
Defined.

Lemma both_inl {A B C} (f : A → B → C) a b c :
  both f a b = inl c → ∃ x y, a = inl x ∧ b = inl y ∧ c = f x y.
Proof.
  destruct a as [x | ?], b as [y | ?]; try discriminate.
  intros [= <-]. eauto.
Qed.

Lemma all_of_inl {A} (results : list (A + list ZodIssue)) parsed :
  all_of results = inl parsed → results = map inl parsed.
Proof.
  revert parsed. induction results as [| r more IH]; intros parsed.
  - intros [= <-]. reflexivity.
  - cbn [all_of]. intros Hboth.
    apply both_inl in Hboth as (x & rest & -> & Hmore & ->).
    cbn [map]. f_equal. apply IH, Hmore.
Qed.

Lemma menuItemSchema_accepts more_fields path input parsed :
  zod_check (menuItemSchema more_fields) path input = inl parsed →
  is_menu_item parsed.
Proof.
  unfold menuItemSchema. cbn [app zod_check].
  destruct input as [[| | | | | members] |]; try discriminate.
  destruct (both _ _ _) as [fields | issues] eqn:Hfields; [| discriminate].
  intros [= <-].
  apply both_inl in Hfields as (v_id & rest & Hid & Hrest & ->).
  apply both_inl in Hrest as (v_name & rest' & Hname & _ & ->).
  destruct (members !! "id") as [[| | | id | |] |]; try discriminate.
  destruct (members !! "name") as [[| | | name | |] |]; try discriminate.
  injection Hid as <-. injection Hname as <-.
  exists (<["id" := JStr id]> (<["name" := JStr name]> rest')), id, name.
  split; [reflexivity | split].
  - apply lookup_insert_eq.
  - rewrite lookup_insert_ne by discriminate. apply lookup_insert_eq.
Qed.

Lemma imap_all_inl {A B} (f : nat → A → B + list ZodIssue) (l : list A) parsed :
  imap f l = map inl parsed →
  length parsed = length l
  ∧ ∀ i p, parsed !! i = Some p → ∃ a, l !! i = Some a ∧ f i a = inl p.
Proof.
  revert f parsed. induction l as [| a l IH]; intros f [| p parsed]; try discriminate.
  - split; [reflexivity |]. intros i p. rewrite lookup_nil. discriminate.
  - cbn [imap map]. intros [= Hhead Htail].
    apply IH in Htail as [Hlen Hnth]. split; [cbn; congruence |].
    intros [| i] q; cbn.
    + intros [= <-]. eauto.
    + intros Hq. apply Hnth in Hq as (a' & Ha' & Hf). eauto.
Qed.

(** X12.  Whatever [getMenuItems] returns as data is a list with one entry
    per element of the array in the response body, and every entry is an
    object with a string under ["id"] and a string under ["name"] (the
    fields elided in the rule not declaring those two names again). *)
Theorem getMenuItems_data_shape
    network env AUTH_BASE_URL BASE_URL zod_message more_fields past data :
  "id" ∉ more_fields.*1 → "name" ∉ more_fields.*1 →
  fst (getMenuItems network env AUTH_BASE_URL BASE_URL zod_message more_fields past)
  = Normal (Success data) →
  ∃ response body items,
    fst (authorizedFetch network env AUTH_BASE_URL (BASE_URL +:+ "/api/menu")
           no_options past) = Normal response
    ∧ json_of response = Normal (JArr body)
    ∧ data = JArr items
    ∧ length items = length body
    ∧ Forall is_menu_item items.
Proof.
  intros _ _. rewrite getMenuItems_run.
  destruct (authorizedFetch _ _ _ _ _ _) as [[response | e] evs]; cbn [fst];
    [| destruct e; discriminate].
  destruct (json_of response) as [body | e] eqn:Hjson;
    [| destruct e; discriminate].
  destruct (zod_check _ _ _) as [items | issues] eqn:Hcheck; [| discriminate].
  intros [= <-]. cbn [zod_check] in Hcheck.
  destruct body as [| | | | body |]; try discriminate.
  destruct (all_of _) as [parsed | issues] eqn:Hall; [| discriminate].
  injection Hcheck as <-.
  apply all_of_inl, imap_all_inl in Hall as [Hlen Hnth].
  exists response, body, parsed.
  split; [reflexivity |]. split; [exact Hjson |]. split; [reflexivity |].
  split; [exact Hlen |].
  apply Forall_lookup. intros i p Hp.
  apply Hnth in Hp as (item & _ & Hitem).
  apply (menuItemSchema_accepts _ _ _ _ Hitem).
Qed.

Lemma getMenuItems_data_shape_witness :
  ∃ response body items,
    fst (authorizedFetch (scripted [Normal menu_response]) ∅ "http://a"
           ("http://b" +:+ "/api/menu") no_options []) = Normal response
    ∧ json_of response = Normal (JArr body)
    ∧ JArr [JObj {["id" := JStr "1"; "name" := JStr "Masala Dosa"]}] = JArr items
    ∧ length items = length body
    ∧ Forall is_menu_item items.
Proof.
  apply (getMenuItems_data_shape (scripted [Normal menu_response]) ∅ "http://a"
           "http://b" render_issues [] []).
  - cbn. apply not_elem_of_nil.
  - cbn. apply not_elem_of_nil.
  - reflexivity.
Defined.

(** ** Reading the star row as a whole *)

Lemma num_le_floor_leb star q :
  num_le (of_Z star) (math_floor (Finite q)) = (star <=? Qfloor q).
Proof.
  destruct (star <=? Qfloor q) eqn:Hle.
  - apply num_le_floor_finite, Z.leb_le, Hle.
  - apply not_true_is_false. intros Hfull.
    apply num_le_floor_finite, Z.leb_le in Hfull. congruence.
Qed.

Lemma StarRating_finite q :
  children (StarRating (Finite q))
  = map (λ star,
           if star <=? Qfloor q then full_star star
           else if Qeq_bool (inject_Z star - (1 # 2)) q then half_star star
                else empty_star star)
      [1; 2; 3; 4; 5].
Proof.
  unfold StarRating. cbn [children]. apply map_ext. intros star.
  rewrite num_le_floor_leb. reflexivity.
Qed.

Lemma half_fixes_floor star q :
  Qeq_bool (inject_Z star - (1 # 2)) q = true → Qfloor q = star - 1.
Proof.
  intros Hhalf. apply Qeq_bool_iff in Hhalf.
  rewrite <- (Qfloor_comp _ _ Hhalf).
  unfold Qfloor, Qminus, Qplus, Qopp, inject_Z; cbn [Qnum Qden].
  symmetry. apply (Z.div_unique _ _ _ 1); lia.
Qed.

Ltac settle_floor z :=
  repeat match goal with
         | |- context [?i <=? z] =>
             destruct (Z.leb_spec i z); try lia
         end.

Lemma star_row_layout rating :
  let f := full_count rating in
  let h := on_half rating in
  children (StarRating rating)
  = map full_star (count_from 1 f)
    ++ (if h then [half_star (Z.of_nat f + 1)] else [])
    ++ map empty_star
         (count_from (Z.of_nat f + 1 + (if h then 1 else 0))
            (5 - f - (if h then 1 else 0))).
Proof.
  destruct rating as [| | | q]; try reflexivity.
  cbv zeta. rewrite StarRating_finite.
  unfold full_count, on_half. cbn [existsb map].
  pose proof (half_fixes_floor 1 q) as H1.
  pose proof (half_fixes_floor 2 q) as H2.
  pose proof (half_fixes_floor 3 q) as H3.
  pose proof (half_fixes_floor 4 q) as H4.
  pose proof (half_fixes_floor 5 q) as H5.
  destruct (Qeq_bool (inject_Z 1 - (1 # 2)) q);
    [rewrite (H1 eq_refl) in *; clear H1;
     repeat match goal with
            | H : true = true → _ |- _ => specialize (H eq_refl); discriminate H
            end |].
  all: destruct (Qeq_bool (inject_Z 2 - (1 # 2)) q);
    [rewrite (H2 eq_refl) in *; clear H2;
     repeat match goal with
            | H : true = true → _ |- _ => specialize (H eq_refl); discriminate H
            end |].
  all: destruct (Qeq_bool (inject_Z 3 - (1 # 2)) q);
    [rewrite (H3 eq_refl) in *; clear H3;
     repeat match goal with
            | H : true = true → _ |- _ => specialize (H eq_refl); discriminate H
            end |].
  all: destruct (Qeq_bool (inject_Z 4 - (1 # 2)) q);
    [rewrite (H4 eq_refl) in *; clear H4;
     repeat match goal with
            | H : true = true → _ |- _ => specialize (H eq_refl); discriminate H
            end |].
  all: destruct (Qeq_bool (inject_Z 5 - (1 # 2)) q);
    [rewrite (H5 eq_refl) in *; clear H5 |].
  all: try reflexivity.
  clear H1 H2 H3 H4 H5. cbn [orb].
  generalize (Qfloor q). intros z.
  assert (Hz : z ≤ 0 ∨ z = 1 ∨ z = 2 ∨ z = 3 ∨ z = 4 ∨ 5 ≤ z) by lia.
  destruct Hz as [Hz | [-> | [-> | [-> | [-> | Hz]]]]]; try reflexivity.
  - replace (Z.min 5 (Z.max 0 z)) with 0 by lia. settle_floor z. reflexivity.
  - replace (Z.min 5 (Z.max 0 z)) with 5 by lia. settle_floor z. reflexivity.
Qed.

(** X13.  A star row always reads, left to right: full stars, then at most
    one half star, then empty stars.  The full stars number the floor of
    the rating, kept within 0..5 (none for NaN and for minus infinity, five
    for plus infinity); the half star is there exactly when the rating is
    one of 0.5, 1.5, 2.5, 3.5, 4.5, so a rating such as 3.7 shows three full
    stars and no half star. *)
Theorem StarRating_layout rating :
  let f := full_count rating in
  let h := on_half rating in
  children (StarRating rating)
  = map full_star (count_from 1 f)
    ++ (if h then [half_star (Z.of_nat f + 1)] else [])
    ++ map empty_star
         (count_from (Z.of_nat f + 1 + (if h then 1 else 0))
            (5 - f - (if h then 1 else 0)))
  ∧ (h = true → (f < 5)%nat)
  ∧ (∀ q, rating = Finite q →
          (h = true ↔ ∃ k, 1 ≤ k ≤ 5 ∧ inject_Z k - (1 # 2) == q)).
Proof.
  cbv zeta. split; [apply star_row_layout | split].
  - destruct rating as [| | | q]; try discriminate.
    unfold on_half, full_count. cbn [existsb]. rewrite !orb_true_iff.
    intros [H | [H | [H | [H | [H | [=]]]]]];
      apply half_fixes_floor in H; rewrite H; cbn; lia.
  - intros q ->. unfold on_half. rewrite existsb_exists. split.
    + intros (k & Hin & Hk). exists k. split; [| apply Qeq_bool_iff, Hk].
      cbn in Hin. lia.
    + intros (k & Hk & Heq). exists k. split; [| apply Qeq_bool_iff, Heq].
      cbn. lia.
Qed.

Lemma StarRating_layout_witness :
  (full_count (Finite (7 # 2)) < 5)%nat ∧ on_half (Finite (7 # 2)) = true.
Proof.
  destruct (StarRating_layout (Finite (7 # 2))) as (_ & Hbelow & Hhalf).
  split.
  - apply Hbelow. reflexivity.
  - apply (Hhalf (7 # 2) eq_refl). exists 4. split; [lia | reflexivity].
Defined.

Lemma filter_full_stars l :
  List.filter is_full (map full_star l) = map full_star l
  ∧ List.filter is_half (map full_star l) = []
  ∧ List.filter is_full (map empty_star l) = []
  ∧ List.filter is_half (map empty_star l) = [].
Proof.
  induction l as [| i l (IH1 & IH2 & IH3 & IH4)]; [repeat split |].
  cbn. rewrite IH1, IH2, IH3, IH4. repeat split.
Qed.

Lemma StarRating_counts rating :
  length (List.filter is_full (children (StarRating rating))) = full_count rating
  ∧ length (List.filter is_half (children (StarRating rating)))
    = (if on_half rating then 1 else 0)%nat.
Proof.
  rewrite star_row_layout. cbv zeta.
  rewrite !List.filter_app.
  pose proof (filter_full_stars (count_from 1 (full_count rating)))
    as (-> & -> & _ & _).
  match goal with
  | |- context [map empty_star ?l] =>
      pose proof (filter_full_stars l) as (_ & _ & -> & ->)
  end.
  rewrite !app_nil_r, !length_app, length_map.
  unfold count_from at 1. rewrite length_map, length_seq.
  destruct (on_half rating); cbn; split; lia.
Qed.

(** X14.  The number of full stars in the row is the floor of the rating
    kept within 0..5, there is at most one half star, and a higher rating
    never shows fewer full stars. *)
Theorem StarRating_full_stars rating :
  length (List.filter is_full (children (StarRating rating))) = full_count rating
  ∧ (length (List.filter is_half (children (StarRating rating))) ≤ 1)%nat
  ∧ (∀ q, rating = Finite q →
          full_count rating = Z.to_nat (Z.min 5 (Z.max 0 (Qfloor q))))
  ∧ (∀ p q, rating = Finite p → (p <= q)%Q →
            (length (List.filter is_full (children (StarRating rating)))
             ≤ length (List.filter is_full (children (StarRating (Finite q)))))%nat).
Proof.
  pose proof (StarRating_counts rating) as [Hfull Hhalf].
  split; [exact Hfull |]. split; [| split].
  - rewrite Hhalf. destruct (on_half rating); lia.
  - intros q ->. reflexivity.
  - intros p q -> Hle. rewrite Hfull.
    rewrite (proj1 (StarRating_counts (Finite q))).
    unfold full_count. apply Qfloor_resp_le in Hle.
    apply Z2Nat.inj_le; lia.
Qed.

Lemma StarRating_full_stars_witness :
  (length (List.filter is_full (children (StarRating (Finite (5 # 2)))))
   ≤ length (List.filter is_full (children (StarRating (Finite (37 # 10))))))%nat
  ∧ full_count (Finite (37 # 10)) = 3%nat.
Proof.
  split.
  - apply (proj2 (proj2 (proj2 (StarRating_full_stars (Finite (5 # 2)))))
             (5 # 2) (37 # 10) eq_refl).
    unfold Qle. cbn. lia.
  - apply (proj1 (proj2 (proj2 (StarRating_full_stars (Finite (37 # 10)))))
             (37 # 10) eq_refl).
Defined.

Lemma on_half_comp p q : p == q → on_half (Finite p) = on_half (Finite q).
Proof.
  intros Heq. unfold on_half. cbn [existsb].
  rewrite !(Qeqb_comp _ _ (Qeq_refl _) _ _ Heq). reflexivity.
Qed.

(** X15.  For a rating on the half-star grid, that is any of 0, 0.5, 1, ...,
    5 in whatever way the number is written, the row shows the rating
    exactly: twice the number of full stars plus the number of half stars
    is twice the rating. *)
Theorem StarRating_exact_on_grid q k :
  0 ≤ k ≤ 10 → q == k # 2 →
  (2 * length (List.filter is_full (children (StarRating (Finite q))))
   + length (List.filter is_half (children (StarRating (Finite q)))))%nat
  = Z.to_nat k.
Proof.
  intros Hk Heq.
  pose proof (StarRating_counts (Finite q)) as [-> ->].
  rewrite (on_half_comp _ _ Heq). unfold full_count.
  rewrite (Qfloor_comp _ _ Heq).
  assert (Hcases : k = 0 ∨ k = 1 ∨ k = 2 ∨ k = 3 ∨ k = 4 ∨ k = 5 ∨ k = 6
                   ∨ k = 7 ∨ k = 8 ∨ k = 9 ∨ k = 10) by lia.
  destruct Hcases as [-> | [-> | [-> | [-> | [-> | [-> | [-> | [-> | [-> | [-> | ->]]]]]]]]]];
    reflexivity.
Qed.

Lemma StarRating_exact_on_grid_witness :
  (2 * length (List.filter is_full (children (StarRating (Finite (14 # 4)))))
   + length (List.filter is_half (children (StarRating (Finite (14 # 4))))))%nat
  = 7%nat.
Proof.
  apply (StarRating_exact_on_grid (14 # 4) 7); [lia | reflexivity].
Defined.

(** ** Capitalising names and descriptions *)

Lemma upper_lower_char c :
  JsText.upper_char (JsText.lower_char c) = JsText.upper_char c.
Proof. destruct c as [[] [] [] [] [] [] [] []]; reflexivity. Qed.

Lemma is_space_lower_char c :
  JsText.is_space (JsText.lower_char c) = JsText.is_space c.
Proof. destruct c as [[] [] [] [] [] [] [] []]; reflexivity. Qed.

Lemma is_space_upper_char c :
  JsText.is_space (JsText.upper_char c) = JsText.is_space c.
Proof. destruct c as [[] [] [] [] [] [] [] []]; reflexivity. Qed.

Lemma is_space_char c : JsText.is_space c = true → c = " "%char.
Proof. destruct c as [[] [] [] [] [] [] [] []]; (reflexivity || discriminate). Qed.

Lemma upper_upper_char c :
  JsText.upper_char (JsText.upper_char c) = JsText.upper_char c.
Proof. destruct c as [[] [] [] [] [] [] [] []]; reflexivity. Qed.

Lemma lower_lower_char c :
  JsText.lower_char (JsText.lower_char c) = JsText.lower_char c.
Proof. destruct c as [[] [] [] [] [] [] [] []]; reflexivity. Qed.

Lemma split_spaces_nonempty s : ∃ word words, JsText.split_spaces s = word :: words.
Proof.
  induction s as [| c more (word & words & IH)]; cbn; [eauto |].
  destruct (JsText.is_space c); [eauto |]. rewrite IH. eauto.
Qed.

Lemma join_spaces_cons_char c word words :
  JsText.join_spaces (String c word :: words)
  = String c (JsText.join_spaces (word :: words)).
Proof. destruct words; reflexivity. Qed.

Lemma join_spaces_empty_cons word words :
  JsText.join_spaces ("" :: word :: words)
  = String " " (JsText.join_spaces (word :: words)).
Proof. reflexivity. Qed.

(** The split-map-join pipeline of the two components is the single pass
    [title_case]. *)
Lemma capitalize_pipeline s word words :
  let cap := λ w, JsText.toUpperCase (JsText.charAt0 w) +:+ JsText.slice1 w in
  JsText.split_spaces (JsText.toLowerCase s) = word :: words →
  JsText.join_spaces (word :: map cap words) = JsText.title_case false s
  ∧ JsText.join_spaces (cap word :: map cap words) = JsText.title_case true s.
Proof.
  cbv zeta. revert word words.
  induction s as [| c more IH]; intros word words.
  - cbn. intros [= <- <-]. split; reflexivity.
  - cbn [JsText.toLowerCase JsText.split_spaces JsText.title_case].
    rewrite is_space_lower_char.
    destruct (split_spaces_nonempty (JsText.toLowerCase more))
      as (word' & words' & Hsplit).
    destruct (IH _ _ Hsplit) as [IHfalse IHtrue].
    destruct (JsText.is_space c) eqn:Hspace.
    + apply is_space_char in Hspace as ->.
      rewrite Hsplit. intros [= <- <-].
      cbn [map].
      change (JsText.toUpperCase (JsText.charAt0 "") +:+ JsText.slice1 "") with "".
      rewrite join_spaces_empty_cons, IHtrue. split; reflexivity.
    + rewrite Hsplit. intros [= <- <-]. split.
      * rewrite join_spaces_cons_char, IHfalse. reflexivity.
      * cbn [JsText.charAt0 JsText.slice1 JsText.toUpperCase].
        change (String (JsText.upper_char (JsText.lower_char c)) "" +:+ word')
          with (String (JsText.upper_char (JsText.lower_char c)) word').
        rewrite join_spaces_cons_char, IHfalse, upper_lower_char.
        reflexivity.
Qed.

Lemma capitalizeWords_title_case s :
  MenuItemCard.capitalizeWords s = JsText.title_case true s.
Proof.
  unfold MenuItemCard.capitalizeWords.
  destruct (split_spaces_nonempty (JsText.toLowerCase s)) as (word & words & Hsplit).
  rewrite Hsplit. apply (capitalize_pipeline s word words Hsplit).
Qed.

Lemma title_case_get at_start s i :
  String.get i (JsText.title_case at_start s)
  = match String.get i s with
    | Some c =>
        Some (if match i with O => at_start | S _ => JsText.starts_word s i end
              then JsText.upper_char c else JsText.lower_char c)
    | None => None
    end.
Proof.
  revert at_start i. induction s as [| c more IH]; intros at_start [| i];
    try reflexivity.
  cbn [JsText.title_case String.get]. rewrite IH.
  destruct (String.get i more) as [d |]; [| reflexivity].
  destruct i as [| i]; reflexivity.
Qed.

Lemma title_case_length at_start s :
  String.length (JsText.title_case at_start s) = String.length s.
Proof.
  revert at_start. induction s as [| c more IH]; intros at_start; cbn; [| rewrite IH];
    reflexivity.
Qed.

Lemma title_case_idempotent at_start s :
  JsText.title_case at_start (JsText.title_case at_start s)
  = JsText.title_case at_start s.
Proof.
  revert at_start. induction s as [| c more IH]; intros at_start; [reflexivity |].
  cbn [JsText.title_case]. destruct at_start.
  - rewrite upper_upper_char, is_space_upper_char, IH. reflexivity.
  - rewrite lower_lower_char, is_space_lower_char, IH. reflexivity.
Qed.

(** X16.  On ASCII text, [capitalizeWords] of [MenuItemCard] and the
    function that [FavoritesSection] calls [capitalizeFirstLetter] are the
    same title-casing: the result has the characters of the input, position
    by position, upper-cased where the character opens the text or follows
    a space and lower-cased everywhere else. *)
Theorem capitalizeWords_by_position s i :
  JsText.ascii_text s = true →
  String.get i (MenuItemCard.capitalizeWords s)
  = match String.get i s with
    | Some c => Some (if JsText.starts_word s i then JsText.upper_char c
                      else JsText.lower_char c)
    | None => None
    end
  ∧ FavoritesSection.capitalizeFirstLetter s = MenuItemCard.capitalizeWords s.
Proof.
  intros _. split; [| reflexivity].
  rewrite capitalizeWords_title_case, title_case_get.
  destruct (String.get i s); [| reflexivity]. destruct i; reflexivity.
Qed.

Lemma capitalizeWords_by_position_witness :
  String.get 7 (MenuItemCard.capitalizeWords "mASALA dOSA") = Some "D"%char
  ∧ FavoritesSection.capitalizeFirstLetter "mASALA dOSA"
    = MenuItemCard.capitalizeWords "mASALA dOSA".
Proof.
  exact (capitalizeWords_by_position "mASALA dOSA" 7 eq_refl).
Defined.

(** X17.  On ASCII text, [capitalizeWords] keeps the length of its input
    and every space where it was (runs of spaces and spaces at either end
    included), and applying it twice is the same as applying it once. *)
Theorem capitalizeWords_stable s :
  JsText.ascii_text s = true →
  String.length (MenuItemCard.capitalizeWords s) = String.length s
  ∧ (∀ i, String.get i (MenuItemCard.capitalizeWords s) = Some " "%char
          ↔ String.get i s = Some " "%char)
  ∧ MenuItemCard.capitalizeWords (MenuItemCard.capitalizeWords s)
    = MenuItemCard.capitalizeWords s.
Proof.
  intros _. rewrite !capitalizeWords_title_case.
  split; [apply title_case_length |]. split; [| apply title_case_idempotent].
  intros i. rewrite title_case_get.
  destruct (String.get i s) as [c |]; [| reflexivity].
  assert (Hup : JsText.upper_char c = " "%char ↔ c = " "%char).
  { split; [| intros ->; reflexivity].
    intros Hc. apply is_space_char. rewrite <- is_space_upper_char, Hc. reflexivity. }
  assert (Hlow : JsText.lower_char c = " "%char ↔ c = " "%char).
  { split; [| intros ->; reflexivity].
    intros Hc. apply is_space_char. rewrite <- is_space_lower_char, Hc. reflexivity. }
  destruct (match i with O => true | S _ => JsText.starts_word s i end);
    split; intros [= H]; f_equal;
    first [apply Hup; exact H | apply Hlow; exact H].
Qed.

Lemma capitalizeWords_stable_witness :
  MenuItemCard.capitalizeWords " paneer  TIKKA " = " Paneer  Tikka "
  ∧ String.length (MenuItemCard.capitalizeWords " paneer  TIKKA ") = 15%nat
  ∧ MenuItemCard.capitalizeWords (MenuItemCard.capitalizeWords " paneer  TIKKA ")
    = MenuItemCard.capitalizeWords " paneer  TIKKA ".
Proof.
  split; [reflexivity |].
  destruct (capitalizeWords_stable " paneer  TIKKA " eq_refl) as (Hlen & _ & Htwice).
  split; [exact Hlen | exact Htwice].
Defined.

(** X18.  The description paragraph of a menu card is never empty: without
    a description, or with an empty one, it reads ["No description
    available"]; otherwise it is the description with its first character
    upper-cased and, unlike the name, all the rest left as it was. *)
Theorem MenuItemCard_description item :
  MenuItemCard.description item ≠ ""
  ∧ (MenuItemCard.short_description item = None
     ∨ MenuItemCard.short_description item = Some "" →
     MenuItemCard.description item = "No description available")
  ∧ (∀ c more,
       MenuItemCard.short_description item = Some (String c more) →
       JsText.ascii_text (String c more) = true →
       MenuItemCard.description item = String (JsText.upper_char c) more).
Proof.
  unfold MenuItemCard.description.
  destruct (MenuItemCard.short_description item) as [[| c more] |].
  - split; [discriminate |]. split; [reflexivity | discriminate].
  - split; [discriminate |]. split; [intros [[=] | [=]] |].
    intros c' more' [= <- <-] _. reflexivity.
  - split; [discriminate |]. split; [reflexivity | discriminate].
Qed.

Lemma MenuItemCard_description_witness :
  MenuItemCard.description dosa = "Crisp rice crepe, SPICED potato".
Proof.
  exact (proj2 (proj2 (MenuItemCard_description dosa))
           "c"%char "risp rice crepe, SPICED potato" eq_refl eq_refl).
Defined.

(** X19.  A menu card shows neither the [veg] nor the [non-veg] badge
    exactly when the item is not flagged as having protein options or its
    list of proteins is empty; with the flag set and a protein in the list
    at least one of the two badges is shown, and both are shown exactly when
    the list holds a vegetarian and a non-vegetarian protein. *)
Theorem MenuItemCard_badges item :
  (MenuItemCard.hasVegetarianOptions item = false
   ∧ MenuItemCard.hasNonVegetarianOptions item = false
   ↔ MenuItemCard.has_protein_options item = false
     ∨ MenuItemCard.menu_item_proteins item = [])
  ∧ (MenuItemCard.hasVegetarianOptions item = true
     ∧ MenuItemCard.hasNonVegetarianOptions item = true
     ↔ MenuItemCard.has_protein_options item = true
       ∧ (∃ p, In p (MenuItemCard.menu_item_proteins item)
               ∧ MenuItemCard.is_vegetarian (MenuItemCard.protein_options p) = true)
       ∧ (∃ p, In p (MenuItemCard.menu_item_proteins item)
               ∧ MenuItemCard.is_vegetarian (MenuItemCard.protein_options p) = false)).
Proof.
  unfold MenuItemCard.hasVegetarianOptions, MenuItemCard.hasNonVegetarianOptions.
  split.
  - destruct (MenuItemCard.has_protein_options item); cbn [andb]; [| tauto].
    destruct (MenuItemCard.menu_item_proteins item) as [| p proteins]; [tauto |].
    cbn [existsb].
    destruct (MenuItemCard.is_vegetarian (MenuItemCard.protein_options p));
      cbn [negb orb]; split; intros H; try tauto;
      destruct H as [H | H]; discriminate.
  - rewrite !andb_true_iff, !existsb_exists.
    setoid_rewrite negb_true_iff. tauto.
Qed.

(** ** The image modal of the two components *)

Lemma favorites_step_invariant s a :
  favorites_invariant s → favorites_invariant (FavoritesSection.step s a).
Proof.
  unfold favorites_invariant. intros (Hopen & Hclosing & Hdelays).
  destruct a as [item | item key | |]; cbn [FavoritesSection.step].
  - split; [| split]; cbn; eauto.
  - destruct (String.eqb key "Enter"); (split; [| split]); cbn; eauto.
  - split; [| split]; cbn; auto.
    + intros _ Hnone. apply app_eq_nil in Hnone as [_ [=]].
    + apply Forall_app. split; [exact Hdelays | repeat constructor].
  - destruct (FavoritesSection.timeouts s) as [| delay later] eqn:Htimeouts.
    + rewrite Htimeouts. auto.
    + split; [| split]; cbn; try discriminate.
      inversion Hdelays; assumption.
Qed.

Lemma favorites_run_invariant actions s :
  favorites_invariant s → favorites_invariant (FavoritesSection.run actions s).
Proof.
  revert s. induction actions as [| a actions IH]; intros s Hs; [exact Hs |].
  cbn. apply IH, favorites_step_invariant, Hs.
Qed.

(** X20.  Whatever the user does in [FavoritesSection], in whatever order
    the timeouts fire: while the modal is open an item is selected, so the
    modal shows that item's image and alternative text and never the empty
    fallbacks; while the closing animation runs a timeout is pending; every
    pending timeout has the delay 200; and the selection, once made, is
    never cleared. *)
Theorem FavoritesSection_modal_invariant actions :
  let s := FavoritesSection.run actions FavoritesSection.initial in
  (FavoritesSection.isModalOpen s = true →
   ∃ item, FavoritesSection.selectedItem s = Some item
           ∧ FavoritesSection.modal s
             = Some (FavoritesSection.image_url item,
                     FavoritesSection.image_alt_text item,
                     FavoritesSection.isClosing s))
  ∧ (FavoritesSection.isClosing s = true → FavoritesSection.timeouts s ≠ [])
  ∧ Forall (λ delay, delay = 200) (FavoritesSection.timeouts s)
  ∧ (∀ more, is_Some (FavoritesSection.selectedItem s) →
             is_Some (FavoritesSection.selectedItem (FavoritesSection.run more s))).
Proof.
  cbv zeta.
  assert (Hinit : favorites_invariant FavoritesSection.initial).
  { unfold favorites_invariant. split; [| split]; cbn; try discriminate.
    constructor. }
  destruct (favorites_run_invariant actions _ Hinit) as (Hopen & Hclosing & Hdelays).
  split; [| split; [exact Hclosing | split; [exact Hdelays |]]].
  - intros Hshown. destruct (Hopen Hshown) as [item Hitem].
    exists item. split; [exact Hitem |].
    unfold FavoritesSection.modal. rewrite Hshown, Hitem. reflexivity.
  - generalize (FavoritesSection.run actions FavoritesSection.initial).
    intros s more. revert s.
    induction more as [| a more IH]; intros s Hs; [exact Hs |].
    cbn. apply IH.
    destruct a as [item | item key | |]; cbn [FavoritesSection.step]; eauto.
    + destruct (String.eqb key "Enter"); cbn; eauto.
    + destruct (FavoritesSection.timeouts s); cbn; eauto.
Qed.

Lemma FavoritesSection_modal_invariant_witness :
  FavoritesSection.modal
    (FavoritesSection.run
       [FavoritesSection.ClickImage samosa; FavoritesSection.ModalClose]
       FavoritesSection.initial)
  = Some ("/img/samosa.jpg", "Two samosas", true).
Proof.
  destruct (proj1 (FavoritesSection_modal_invariant
                     [FavoritesSection.ClickImage samosa; FavoritesSection.ModalClose])
              eq_refl)
    as (item & Hitem & Hmodal).
  injection Hitem as <-. exact Hmodal.
Defined.

(** A key pressed on the image: Enter opens the modal, Escape starts the
    close when the modal is open, and nothing else happens.  The listener
    on [document] gives the same state whichever value of [isModalOpen] it
    reads. *)
Lemma card_key_on_image key s :
  MenuItemCard.handleKeyDown key (MenuItemCard.onKeyDown key s)
  = if String.eqb key "Enter" then MenuItemCard.handleOpenModal s
    else if String.eqb key "Escape" && MenuItemCard.isModalOpen s
         then MenuItemCard.handleClose s
         else s.
Proof.
  unfold MenuItemCard.handleKeyDown, MenuItemCard.onKeyDown.
  destruct (String.eqb key "Enter") eqn:Henter; [| reflexivity].
  apply String.eqb_eq in Henter. subst key. reflexivity.
Qed.

Lemma card_step_invariant s a :
  card_invariant s → card_invariant (MenuItemCard.step s a).
Proof.
  unfold card_invariant. intros (Hclosing & Hdelays).
  assert (Hclose : (MenuItemCard.isClosing (MenuItemCard.handleClose s) = true →
                    MenuItemCard.timeouts (MenuItemCard.handleClose s) ≠ [])
                   ∧ Forall (λ delay, delay = 200)
                       (MenuItemCard.timeouts (MenuItemCard.handleClose s))).
  { split; cbn.
    - intros _ Hnone. apply app_eq_nil in Hnone as [_ [=]].
    - apply Forall_app. split; [exact Hdelays | repeat constructor]. }
  destruct a as [| key | key | |]; cbn [MenuItemCard.step].
  - split; cbn; auto.
  - rewrite card_key_on_image.
    destruct (String.eqb key "Enter"); [split; cbn; auto |].
    destruct (String.eqb key "Escape" && MenuItemCard.isModalOpen s); auto.
  - unfold MenuItemCard.handleKeyDown.
    destruct (String.eqb key "Escape" && MenuItemCard.isModalOpen s); auto.
  - exact Hclose.
  - destruct (MenuItemCard.timeouts s) as [| delay later] eqn:Htimeouts.
    + rewrite Htimeouts. auto.
    + split; cbn; try discriminate. inversion Hdelays; assumption.
Qed.

Lemma card_run_invariant actions s :
  card_invariant s → card_invariant (MenuItemCard.run actions s).
Proof.
  revert s. induction actions as [| a actions IH]; intros s Hs; [exact Hs |].
  cbn. apply IH, card_step_invariant, Hs.
Qed.

Lemma card_timeouts_drain n s :
  length (MenuItemCard.timeouts s) = S n →
  MenuItemCard.run (repeat MenuItemCard.TimeoutFires (S n)) s
  = {| MenuItemCard.isModalOpen := false; MenuItemCard.isClosing := false;
       MenuItemCard.timeouts := [] |}.
Proof.
  revert s. induction n as [| n IH]; intros s Hlen.
  - cbn. destruct (MenuItemCard.timeouts s) as [| d [| d' later]]; try discriminate.
    reflexivity.
  - change (repeat MenuItemCard.TimeoutFires (S (S n)))
      with (MenuItemCard.TimeoutFires :: repeat MenuItemCard.TimeoutFires (S n)).
    cbn [MenuItemCard.run fold_left MenuItemCard.step].
    destruct (MenuItemCard.timeouts s) as [| d later]; [discriminate |].
    apply IH. cbn in *. lia.
Qed.

(** X21.  Whatever the user does on a menu card, in whatever order the
    timeouts fire: while the closing animation runs a timeout is pending,
    and every pending timeout has the delay 200.  The listener on
    [document] changes nothing for a key pressed while the modal is closed
    and for any key other than Escape.  A key pressed on the image reaches
    both the image's handler and that listener: Enter opens the modal,
    Escape with the modal open starts the close exactly as Escape pressed
    elsewhere does, and every other press (any key but Enter and Escape, or
    Escape with the modal closed) changes nothing.  Once all pending
    timeouts have fired the modal is closed and no longer closing; in
    particular a click on the image during the closing animation does not
    keep the modal open. *)
Theorem MenuItemCard_modal_invariant actions :
  let s := MenuItemCard.run actions MenuItemCard.initial in
  let closed :=
    {| MenuItemCard.isModalOpen := false; MenuItemCard.isClosing := false;
       MenuItemCard.timeouts := [] |} in
  (MenuItemCard.isClosing s = true → MenuItemCard.timeouts s ≠ [])
  ∧ Forall (λ delay, delay = 200) (MenuItemCard.timeouts s)
  ∧ (∀ key, MenuItemCard.isModalOpen s = false ∨ key ≠ "Escape" →
            MenuItemCard.step s (MenuItemCard.KeyDownDocument key) = s)
  ∧ (MenuItemCard.timeouts s ≠ [] →
     MenuItemCard.run
       (repeat MenuItemCard.TimeoutFires (length (MenuItemCard.timeouts s))) s
     = closed)
  ∧ (MenuItemCard.timeouts s = [] →
     MenuItemCard.run
       [MenuItemCard.ModalClose; MenuItemCard.ClickImage; MenuItemCard.TimeoutFires] s
     = closed)
  ∧ MenuItemCard.step s (MenuItemCard.KeyDownImage "Enter")
    = MenuItemCard.handleOpenModal s
  ∧ (MenuItemCard.isModalOpen s = true →
     MenuItemCard.step s (MenuItemCard.KeyDownImage "Escape")
     = MenuItemCard.handleClose s
     ∧ MenuItemCard.step s (MenuItemCard.KeyDownDocument "Escape")
       = MenuItemCard.handleClose s)
  ∧ (∀ key, key ≠ "Enter" →
            MenuItemCard.isModalOpen s = false ∨ key ≠ "Escape" →
            MenuItemCard.step s (MenuItemCard.KeyDownImage key) = s).
Proof.
  cbv zeta.
  assert (Hinit : card_invariant MenuItemCard.initial).
  { unfold card_invariant. split; cbn; [discriminate | constructor]. }
  destruct (card_run_invariant actions _ Hinit) as (Hclosing & Hdelays).
  split; [exact Hclosing | split; [exact Hdelays |]].
  generalize (MenuItemCard.run actions MenuItemCard.initial). intros s.
  assert (Hquiet : ∀ key, MenuItemCard.isModalOpen s = false ∨ key ≠ "Escape" →
                          String.eqb key "Escape" && MenuItemCard.isModalOpen s = false).
  { intros key [-> | Hkey]; [apply andb_false_r |].
    apply String.eqb_neq in Hkey. rewrite Hkey. reflexivity. }
  split; [| split; [| split; [| split; [| split]]]].
  - intros key Hkey. cbn. unfold MenuItemCard.handleKeyDown.
    rewrite (Hquiet key Hkey). reflexivity.
  - intros Hpending.
    destruct (length (MenuItemCard.timeouts s)) as [| n] eqn:Hlen.
    + destruct (MenuItemCard.timeouts s); [contradiction | discriminate].
    + apply card_timeouts_drain, Hlen.
  - intros Hidle. cbn. rewrite Hidle. reflexivity.
  - cbn [MenuItemCard.step]. rewrite card_key_on_image. reflexivity.
  - intros Hopen. split.
    + cbn [MenuItemCard.step]. rewrite card_key_on_image, Hopen. reflexivity.
    + cbn [MenuItemCard.step]. unfold MenuItemCard.handleKeyDown.
      rewrite Hopen. reflexivity.
  - intros key Henter Hkey. cbn [MenuItemCard.step].
    rewrite card_key_on_image, (Hquiet key Hkey).
    apply String.eqb_neq in Henter. rewrite Henter. reflexivity.
Qed.

Lemma MenuItemCard_modal_invariant_witness :
  let opened := MenuItemCard.run [MenuItemCard.ClickImage] MenuItemCard.initial in
  MenuItemCard.run
    [MenuItemCard.ModalClose; MenuItemCard.ClickImage; MenuItemCard.TimeoutFires]
    opened
  = {| MenuItemCard.isModalOpen := false; MenuItemCard.isClosing := false;
       MenuItemCard.timeouts := [] |}
  ∧ MenuItemCard.step opened (MenuItemCard.KeyDownDocument "Enter") = opened
  ∧ MenuItemCard.step opened (MenuItemCard.KeyDownImage "Escape")
    = {| MenuItemCard.isModalOpen := true; MenuItemCard.isClosing := true;
         MenuItemCard.timeouts := [200] |}
  ∧ MenuItemCard.step opened (MenuItemCard.KeyDownImage "Tab") = opened.
Proof.
  cbv zeta.
  destruct (MenuItemCard_modal_invariant [MenuItemCard.ClickImage])
    as (_ & _ & Hkey & _ & Hreopen & _ & Hescape & Hother).
  split; [| split; [| split]].
  - apply Hreopen. reflexivity.
  - apply Hkey. right. discriminate.
  - destruct (Hescape eq_refl) as [-> _]. reflexivity.
  - apply Hother; [discriminate | right; discriminate].
Defined.

(** ** The sibling token exchange *)

Lemma getClientCredentialsToken_run network env BASE_URL past :
  let answer := network past (token_url BASE_URL) (credentials_request env) in
  let req := EvFetch (token_url BASE_URL) (credentials_request env) in
  getClientCredentialsToken network env BASE_URL past
  = match answer with
    | Normal r =>
        if ok r then (Normal true, [req])
        else (Normal false,
              [req; EvConsoleError "Failed to get token:"
                      (inr (JsError "Error" "Failed to obtain access token"))])
    | Abrupt e =>
        (Normal false, [req; EvConsoleError "Failed to get token:" (inr e)])
    end.
Proof.
  cbv zeta.
  unfold getClientCredentialsToken, js_bind, try_catch, emit, fetch,
    console_error, js_ret, js_throw.
  fold (token_url BASE_URL).
  change (mkInit (Some "POST") _ _ _ _) with (credentials_request env).
  destruct (network _ _ _) as [r | e]; [| reflexivity].
  destruct (ok r); reflexivity.
Qed.

(** X22.  [getClientCredentialsToken] never throws and issues exactly one
    [fetch]: it returns [true] when the token endpoint answers with a status
    in 200..299 and [false] otherwise, logging once to [console.error] in
    that case and not at all on success.  Unlike [authenticate] it has no
    default credentials: a variable missing from the environment is sent as
    the text ["undefined"]. *)
Theorem getClientCredentialsToken_contract network env BASE_URL past :
  let answer := network past (token_url BASE_URL) (credentials_request env) in
  let run := getClientCredentialsToken network env BASE_URL past in
  fst run = Normal (token_verdict answer)
  ∧ fetches (snd run) = [EvFetch (token_url BASE_URL) (credentials_request env)]
  ∧ length (console_errors (snd run))
    = (if token_verdict answer then 0 else 1)%nat
  ∧ (env !! "CLIENT_ID" = None → env !! "CLIENT_SECRET" = None →
     header_fields (credentials_request env) !! "Authorization"
     = Some (HString "Basic dW5kZWZpbmVkOnVuZGVmaW5lZA=="))
  ∧ (∀ id secret,
       env !! "CLIENT_ID" = Some id → env !! "CLIENT_SECRET" = Some secret →
       header_fields (credentials_request env) !! "Authorization"
       = Some (HString ("Basic " +:+ Base64.encode (id +:+ ":" +:+ secret)))).
Proof.
  cbv zeta. rewrite getClientCredentialsToken_run. cbv zeta.
  split; [| split; [| split; [| split]]].
  - destruct (network _ _ _) as [r | e]; [destruct (ok r) eqn:Hok |]; cbn;
      rewrite ?Hok; reflexivity.
  - destruct (network _ _ _) as [r | e]; [destruct (ok r) |]; reflexivity.
  - destruct (network _ _ _) as [r | e]; [destruct (ok r) eqn:Hok |]; cbn;
      rewrite ?Hok; reflexivity.
  - intros Hid Hsecret. unfold header_fields, credentials_request.
    cbn [headers spread_headers]. rewrite Hid, Hsecret. apply lookup_insert_eq.
  - intros id secret Hid Hsecret. unfold header_fields, credentials_request.
    cbn [headers spread_headers]. rewrite Hid, Hsecret. apply lookup_insert_eq.
Qed.

Lemma getClientCredentialsToken_contract_witness :
  header_fields (credentials_request ∅) !! "Authorization"
  = Some (HString "Basic dW5kZWZpbmVkOnVuZGVmaW5lZA==")
  ∧ header_fields
      (credentials_request {["CLIENT_ID" := "client"; "CLIENT_SECRET" := "secret"]})
    !! "Authorization"
    = Some (HString ("Basic " +:+ Base64.encode ("client" +:+ ":" +:+ "secret"))).
Proof.
  split.
  - exact (proj1 (proj2 (proj2 (proj2 (getClientCredentialsToken_contract
                    (scripted []) ∅ "http://b" []))))
             eq_refl eq_refl).
  - exact (proj2 (proj2 (proj2 (proj2 (getClientCredentialsToken_contract
                    (scripted [])
                    {["CLIENT_ID" := "client"; "CLIENT_SECRET" := "secret"]}
                    "http://b" []))))
             "client" "secret" eq_refl eq_refl).
Defined.

(** ** The sibling fetch wrapper *)

Lemma fetchApi_run network env statusText number_text null_text endpoint options past :
  let req := EvFetch (api_url env endpoint) (api_request options) in
  fetchApi network env statusText number_text null_text endpoint options past
  = match network past (api_url env endpoint) (api_request options) with
    | Abrupt e => (Abrupt e, [req])
    | Normal r =>
        if ok r then (json_of r, [req])
        else
          (match
             JsValue.message_member null_text
               match json_of r with
               | Normal error => error
               | Abrupt _ => JObj ∅
               end
           with
           | Abrupt e => Abrupt e
           | Normal message =>
               Abrupt
                 (JsError "Error"
                    (if JsValue.truthy message then
                       match message with
                       | Some v => JsValue.to_string number_text v
                       | None => ""
                       end
                     else status_line statusText r))
           end, [req])
    end.
Proof.
  cbv zeta.
  unfold fetchApi, js_bind, try_catch, fetch, response_json, settle, js_ret, js_throw.
  fold (api_url env endpoint) (api_request options).
  destruct (network _ _ _) as [r | e]; [| reflexivity].
  destruct (ok r); cbn [negb].
  - destruct (json_of r); reflexivity.
  - destruct (json_of r) as [error | e];
      [destruct (JsValue.message_member null_text error) |]; reflexivity.
Qed.



(** X24.  For an answer outside 200..299 [fetchApi] throws an [Error]
    whose message is the non-empty text found under ["message"] in the JSON
    body, the status then appearing nowhere; when the body is not JSON, or
    is JSON without a truthy ["message"], the message is
    ["API error: <status> <statusText>"].  A body that is the JSON [null]
    makes it throw the engine's [TypeError] instead. *)
Theorem fetchApi_failure
    network env statusText number_text null_text endpoint options past r :
  let run :=
    fetchApi network env statusText number_text null_text endpoint options past in
  network past (api_url env endpoint) (api_request options) = Normal r →
  ¬ 200 ≤ status r ≤ 299 →
  (∀ members text,
     json_of r = Normal (JObj members) →
     members !! "message" = Some (JStr text) → text ≠ "" →
     fst run = Abrupt (JsError "Error" text))
  ∧ (∀ members,
       json_of r = Normal (JObj members) →
       JsValue.truthy (members !! "message") = false →
       fst run = Abrupt (JsError "Error" (status_line statusText r)))
  ∧ (∀ e, json_of r = Abrupt e →
          fst run = Abrupt (JsError "Error" (status_line statusText r)))
  ∧ (∀ v, json_of r = Normal v →
          match v with JNull | JObj _ => False | _ => True end →
          fst run = Abrupt (JsError "Error" (status_line statusText r)))
  ∧ (json_of r = Normal JNull → fst run = Abrupt (JsError "TypeError" null_text)).
Proof.
  intros run Hanswer Hrange. subst run.
  rewrite fetchApi_run. cbv zeta. rewrite Hanswer.
  destruct (ok r) eqn:Hok; [apply ok_range in Hok; contradiction |].
  cbn [fst]. split; [| split; [| split; [| split]]].
  - intros members text -> Hmessage Htext. cbn [JsValue.message_member].
    rewrite Hmessage. cbn [JsValue.truthy JsValue.to_string].
    apply String.eqb_neq in Htext. rewrite Htext. reflexivity.
  - intros members -> Hfalsy. cbn [JsValue.message_member]. rewrite Hfalsy.
    reflexivity.
  - intros e ->. reflexivity.
  - intros v -> Hv. destruct v; try contradiction; reflexivity.
  - intros ->. reflexivity.
Qed.

Lemma fetchApi_failure_witness :
  fst (fetchApi (scripted [Normal expired_response]) ∅ reason_phrase (λ _, "")
         "Cannot read properties of null" "/api/menu" no_options [])
  = Abrupt (JsError "Error" "Session expired")
  ∧ fst (fetchApi (scripted [Normal html_response; Normal null_response]) ∅
           reason_phrase (λ _, "") "Cannot read properties of null" "/api/menu"
           no_options [EvFetch "/" no_options])
    = Abrupt (JsError "TypeError" "Cannot read properties of null").
Proof.
  split.
  - assert (Hrange : ¬ 200 ≤ status expired_response ≤ 299) by (cbn; lia).
    exact (proj1 (fetchApi_failure (scripted [Normal expired_response]) ∅
                    reason_phrase (λ _, "") "Cannot read properties of null"
                    "/api/menu" no_options [] expired_response eq_refl Hrange)
             {["message" := JStr "Session expired"]} "Session expired"
             eq_refl eq_refl ltac:(discriminate)).
  - assert (Hrange : ¬ 200 ≤ status null_response ≤ 299) by (cbn; lia).
    exact (proj2 (proj2 (proj2 (proj2
             (fetchApi_failure (scripted [Normal html_response; Normal null_response])
                ∅ reason_phrase (λ _, "") "Cannot read properties of null"
                "/api/menu" no_options [EvFetch "/" no_options] null_response
                eq_refl Hrange))))
             eq_refl).
Defined.
